(** * Seismic detection dashboard: a shallow embedding of [frontend/src/App.jsx]
      and of the [detection_stats_hourly] view that ships with it.

    The development follows the source top to bottom:

    - [JS]: the pieces of the JavaScript runtime the component relies on
      (array and string [slice], IEEE-754 doubles with [Math.max],
      [Math.abs], the [||] truthiness test, [Number.prototype.toFixed],
      [Object.keys]);
    - [JSON]: the grammar accepted by [JSON.parse];
    - [App]: the component state and the six WebSocket handlers, written in
      a state-and-exception monad;
    - [WaveformChart]: the canvas effect, as the trace of context calls;
    - [DetectionCard]: the card computed from one detection event;
    - [Sql]: the hourly aggregate query of the schema file.

    Numbers are primitive binary64 floats, the representation of a
    JavaScript Number.  The renderer is written once over the interface
    [JSNumber], so that it can also be read in exact arithmetic. *)

From Stdlib Require Import ZArith QArith Qcanon String Ascii List Floats Lia.
From stdpp Require Import gmap strings list pretty.

Set Default Proof Using "Type".
Set Warnings "-register-all,-inexact-float".
Local Open Scope Z_scope.

(* ================================================================== *)
(** * Runtime primitives                                                *)
(* ================================================================== *)

Module JS.

(** ** Relative indices and [slice]

    [Array.prototype.slice(start, end)] and [String.prototype.slice] clamp
    both indices: a negative index counts from the end, and everything is
    capped to [0 .. len]. *)

Definition rel_index (len : nat) (i : Z) : nat :=
  if i <? 0 then Z.to_nat (Z.max (Z.of_nat len + i) 0)
  else Z.to_nat (Z.min i (Z.of_nat len)).

Definition Array_slice {A : Type} (l : list A) (start : Z) (stop : option Z)
  : list A :=
  let len := length l in
  let k := rel_index len start in
  let final := match stop with
               | None => len
               | Some e => rel_index len e
               end in
  take (final - k)%nat (drop k l).

Definition String_slice (s : string) (start : Z) (stop : option Z) : string :=
  string_of_list_ascii (Array_slice (list_ascii_of_string s) start stop).

(** ** Numbers

    The operations the program performs on Numbers.  [num_of_Z] is an
    integer Number (an array index, a length, a canvas dimension, an integer
    literal); [num_of_decimal m e] is the literal [m]e[e]. *)

Class JSNumber (num : Type) := {
  num_of_Z : Z -> num;
  num_of_decimal : Z -> Z -> num;
  num_neg_infinity : num;
  num_nan : num;
  num_is_nan : num -> bool;
  num_is_pos_zero : num -> bool;
  num_is_neg_zero : num -> bool;
  num_lt : num -> num -> bool;
  num_abs : num -> num;
  num_mul : num -> num -> num;
  num_div : num -> num -> num;
  num_sub : num -> num -> num
}.

Section Generic.
Context {num : Type} `{JSNumber num}.

(** [ToBoolean] on a Number: false exactly for [+0], [-0] and [NaN]. *)
Definition truthy (x : num) : bool :=
  negb (num_is_nan x || num_is_pos_zero x || num_is_neg_zero x).

(** [a || b] on Numbers. *)
Definition or_else (a b : num) : num := if truthy a then a else b.

(** [Math.max(...l)]: start from [-Infinity]; a [NaN] argument makes the
    result [NaN]; [+0] is larger than [-0]. *)
Fixpoint Math_max_from (highest : num) (l : list num) : num :=
  match l with
  | [] => highest
  | x :: r =>
      if num_is_nan x then num_nan
      else if (num_is_pos_zero x && num_is_neg_zero highest)
              || num_lt highest x
           then Math_max_from x r
           else Math_max_from highest r
  end.

Definition Math_max (l : list num) : num := Math_max_from num_neg_infinity l.

Definition Math_abs : num -> num := num_abs.
End Generic.

(** ** binary64 *)

(** Nearest integer to [n / d], ties to even ([0 <= n], [0 < d]). *)
Definition div_round_even (n d : Z) : Z :=
  let q := n / d in
  match 2 * (n mod d) ?= d with
  | Lt => q
  | Gt => q + 1
  | Eq => if Z.even q then q else q + 1
  end.

(** The double nearest to [p / q] ([0 <= p], [0 < q]), ties to even, with
    gradual underflow and overflow to infinity. *)
Definition double_of_ratio (p q : Z) : float :=
  if p =? 0 then 0%float
  else
    let k := Z.log2 p - Z.log2 q in
    let ge := if 0 <=? k then q * 2 ^ k <=? p else q <=? p * 2 ^ (- k) in
    let lg := if ge then k else k - 1 in
    let s := Z.max (lg - 52) (-1074) in
    let m := div_round_even (p * 2 ^ Z.max 0 (- s)) (q * 2 ^ Z.max 0 s) in
    Z.ldexp (PrimFloat.of_uint63 (Uint63.of_Z m)) s.

(** The double denoted by the decimal [m * 10^e].  Magnitudes far outside
    the binary64 range are settled without building the power of ten. *)
Definition double_of_decimal (m e : Z) : float :=
  let a := Z.abs m in
  let r :=
    if a =? 0 then 0%float
    else if 400 <? e then infinity
    else if e + Z.log2 a + 1 <? -400 then 0%float
    else if 0 <=? e then double_of_ratio (a * 10 ^ e) 1
    else double_of_ratio a (10 ^ (- e)) in
  if m <? 0 then PrimFloat.opp r else r.

Definition double_of_Z (z : Z) : float := double_of_decimal z 0.

#[export] Instance double_number : JSNumber float := {|
  num_of_Z := double_of_Z;
  num_of_decimal := double_of_decimal;
  num_neg_infinity := neg_infinity;
  num_nan := nan;
  num_is_nan := PrimFloat.is_nan;
  num_is_pos_zero x := PrimFloat.is_zero x && negb (PrimFloat.get_sign x);
  num_is_neg_zero x := PrimFloat.is_zero x && PrimFloat.get_sign x;
  num_lt := PrimFloat.ltb;
  num_abs := PrimFloat.abs;
  num_mul := PrimFloat.mul;
  num_div := PrimFloat.div;
  num_sub := PrimFloat.sub
|}.

(** ** Exact arithmetic

    The same operations without rounding: rationals extended with the two
    infinities and [NaN].  There is a single zero. *)

Inductive xnum : Type :=
| XFin (q : Qc)
| XPosInf
| XNegInf
| XNaN.

Definition Qc_is_zero (q : Qc) : bool := bool_decide (q = 0%Qc).
Definition Qc_ltb (a b : Qc) : bool := bool_decide (a < b)%Qc.

Definition Qc_of_decimal (m e : Z) : Qc :=
  Q2Qc (inject_Z m * Qpower (10 # 1) e).

Definition xsign_pos (x : xnum) : option bool :=
  match x with
  | XFin q => if Qc_is_zero q then None else Some (Qc_ltb 0 q)
  | XPosInf => Some true
  | XNegInf => Some false
  | XNaN => None
  end.

Definition xinf (positive : bool) : xnum :=
  if positive then XPosInf else XNegInf.

Definition Qc_abs (q : Qc) : Qc := (if Qc_ltb q 0 then - q else q)%Qc.
Definition Qc_max (a b : Qc) : Qc := if Qc_ltb a b then b else a.

Definition xabs (x : xnum) : xnum :=
  match x with
  | XFin q => XFin (Qc_abs q)
  | XPosInf | XNegInf => XPosInf
  | XNaN => XNaN
  end.

Definition xmul (x y : xnum) : xnum :=
  match x, y with
  | XNaN, _ | _, XNaN => XNaN
  | XFin a, XFin b => XFin (a * b)%Qc
  | _, _ =>
      match xsign_pos x, xsign_pos y with
      | Some sx, Some sy => xinf (Bool.eqb sx sy)
      | _, _ => XNaN
      end
  end.

Definition xdiv (x y : xnum) : xnum :=
  match x, y with
  | XNaN, _ | _, XNaN => XNaN
  | XFin a, XFin b =>
      if Qc_is_zero b then
        match xsign_pos x with
        | Some sx => xinf sx
        | None => XNaN
        end
      else XFin (a / b)%Qc
  | XFin _, _ => XFin 0%Qc
  | XPosInf, XFin b => xinf (negb (Qc_ltb b 0))
  | XNegInf, XFin b => xinf (Qc_ltb b 0)
  | _, _ => XNaN
  end.

Definition xsub (x y : xnum) : xnum :=
  match x, y with
  | XNaN, _ | _, XNaN => XNaN
  | XFin a, XFin b => XFin (a - b)%Qc
  | XFin _, XPosInf => XNegInf
  | XFin _, XNegInf => XPosInf
  | XPosInf, XPosInf | XNegInf, XNegInf => XNaN
  | _, _ => x
  end.

Definition xlt (x y : xnum) : bool :=
  match x, y with
  | XNaN, _ | _, XNaN => false
  | XFin a, XFin b => Qc_ltb a b
  | XNegInf, XNegInf | XPosInf, _ | _, XNegInf => false
  | _, _ => true
  end.

#[export] Instance exact_number : JSNumber xnum := {|
  num_of_Z z := XFin (Qc_of_decimal z 0);
  num_of_decimal m e := XFin (Qc_of_decimal m e);
  num_neg_infinity := XNegInf;
  num_nan := XNaN;
  num_is_nan x := match x with XNaN => true | _ => false end;
  num_is_pos_zero x := match x with XFin q => Qc_is_zero q | _ => false end;
  num_is_neg_zero _ := false;
  num_lt := xlt;
  num_abs := xabs;
  num_mul := xmul;
  num_div := xdiv;
  num_sub := xsub
|}.

(** ** [Number.prototype.toFixed]

    The exact value of a finite double is [m * 2^e]; [toFixed] rounds
    [x * 10^f] to the nearest integer, taking the larger one on a tie, and
    inserts the decimal point.  For magnitudes of at least [1e21] the
    runtime falls back to its general Number-to-String conversion, which is
    taken as a parameter. *)

Definition round_half_up (n d : Z) : Z := (2 * n + d) / (2 * d).

Definition zeros (n : nat) : string := string_of_list_ascii (replicate n "0"%char).

Definition insert_point (digits : string) (f : nat) : string :=
  if Nat.eqb f 0 then digits
  else
    let padded :=
      if Nat.leb (String.length digits) f
      then (zeros (f + 1 - String.length digits) ++ digits)%string
      else digits in
    let k := String.length padded in
    (substring 0 (k - f) padded ++ "." ++ substring (k - f) f padded)%string.

Section ToFixed.
Variable Number_toString : float -> string.

Definition toFixed (x : float) (f : nat) : string :=
  match Prim2SF x with
  | S754_nan => "NaN"
  | S754_infinity neg => if neg then "-Infinity" else "Infinity"
  | S754_zero _ => insert_point "0" f
  | S754_finite neg m e =>
      let sign := if neg then "-" else EmptyString in
      let body :=
        if PrimFloat.leb 1e21 (PrimFloat.abs x)
        then Number_toString (PrimFloat.abs x)
        else
          let n := round_half_up (Z.pos m * 10 ^ Z.of_nat f * 2 ^ Z.max e 0)
                                 (2 ^ Z.max (- e) 0) in
          insert_point (pretty n) f in
      (sign ++ body)%string
  end.
End ToFixed.

(** ** [Object.keys]

    Own string keys of an ordinary object: array indices first, in
    ascending numeric order, then the other keys in insertion order.  An
    object is its list of properties in insertion order; each key occurs
    once. *)

Definition digit_of (c : ascii) : option Z :=
  let n := Z.of_N (N_of_ascii c) in
  if (48 <=? n) && (n <=? 57) then Some (n - 48) else None.

Fixpoint digits_value (acc : Z) (cs : list ascii) : option Z :=
  match cs with
  | [] => Some acc
  | c :: r =>
      match digit_of c with
      | Some d => digits_value (10 * acc + d) r
      | None => None
      end
  end.

(** The canonical numeric strings below [2^32 - 1]. *)
Definition array_index (k : string) : option Z :=
  match list_ascii_of_string k with
  | [] => None
  | c :: r =>
      if Ascii.eqb c "0" && negb (Nat.eqb (length r) 0) then None
      else match digits_value 0 (c :: r) with
           | Some n => if n <? 2 ^ 32 - 1 then Some n else None
           | None => None
           end
  end.

Fixpoint insert_index (n : Z) (k : string) (l : list (Z * string))
  : list (Z * string) :=
  match l with
  | [] => [(n, k)]
  | (n', k') :: r =>
      if n <? n' then (n, k) :: l else (n', k') :: insert_index n k r
  end.

Fixpoint index_keys {A : Type} (o : list (string * A)) : list (Z * string) :=
  match o with
  | [] => []
  | (k, _) :: r =>
      match array_index k with
      | Some n => insert_index n k (index_keys r)
      | None => index_keys r
      end
  end.

Definition Object_keys {A : Type} (o : list (string * A)) : list string :=
  (index_keys o).*2
  ++ filter (fun k => array_index k = None) (o.*1).

(** [o[k]] for an own property. *)
Fixpoint get_property {A : Type} (o : list (string * A)) (k : string)
  : option A :=
  match o with
  | [] => None
  | (k', v) :: r => if String.eqb k k' then Some v else get_property r k
  end.

End JS.

(* ================================================================== *)
(** * [JSON.parse]                                                      *)
(* ================================================================== *)

Module JSON.

Inductive value : Type :=
| JNull
| JBool (b : bool)
| JNum (x : float)
| JStr (s : string)
| JArr (elements : list value)
| JObj (members : list (string * value)).

Definition code (c : ascii) : Z := Z.of_N (N_of_ascii c).
Definition chr (n : Z) : ascii := ascii_of_N (Z.to_N n).

Definition is_ws (c : ascii) : bool :=
  let n := code c in (n =? 32) || (n =? 9) || (n =? 10) || (n =? 13).

Fixpoint skip_ws (cs : list ascii) : list ascii :=
  match cs with
  | c :: r => if is_ws c then skip_ws r else cs
  | [] => []
  end.

(** The longest prefix of decimal digits, as their values. *)
Fixpoint span_digits (cs : list ascii) : list Z * list ascii :=
  match cs with
  | c :: r =>
      match JS.digit_of c with
      | Some d => let '(ds, rest) := span_digits r in (d :: ds, rest)
      | None => ([], cs)
      end
  | [] => ([], [])
  end.

Definition digits_to_Z (ds : list Z) : Z :=
  fold_left (fun acc d => 10 * acc + d) ds 0.

(** number = [ "-" ] int [ "." 1*digit ] [ ("e" / "E") [ "+" / "-" ] 1*digit ],
    where int is "0" or a digit sequence without a leading zero. *)
Definition parse_number (cs : list ascii) : option (float * list ascii) :=
  let '(neg, cs1) := match cs with
                     | "-"%char :: r => (true, r)
                     | _ => (false, cs)
                     end in
  let '(int, cs2) := span_digits cs1 in
  match int with
  | [] => None
  | d0 :: more =>
      if (d0 =? 0) && negb (Nat.eqb (length more) 0) then None
      else
        let frac_rest :=
          match cs2 with
          | "."%char :: r =>
              let '(fr, r') := span_digits r in
              match fr with [] => None | _ => Some (fr, r') end
          | _ => Some ([], cs2)
          end in
        match frac_rest with
        | None => None
        | Some (frac, cs3) =>
            let exp_rest :=
              match cs3 with
              | c :: r =>
                  if (code c =? 101) || (code c =? 69) then
                    let '(eneg, r1) := match r with
                                       | "-"%char :: r' => (true, r')
                                       | "+"%char :: r' => (false, r')
                                       | _ => (false, r)
                                       end in
                    let '(ex, r2) := span_digits r1 in
                    match ex with
                    | [] => None
                    | _ => Some (if eneg then - digits_to_Z ex
                                 else digits_to_Z ex, r2)
                    end
                  else Some (0, cs3)
              | [] => Some (0, cs3)
              end in
            match exp_rest with
            | None => None
            | Some (ex, cs4) =>
                let x := JS.double_of_decimal (digits_to_Z (int ++ frac))
                                              (ex - Z.of_nat (length frac)) in
                Some (if neg then PrimFloat.opp x else x, cs4)
            end
        end
  end.

Definition hex_of (c : ascii) : option Z :=
  let n := code c in
  if (48 <=? n) && (n <=? 57) then Some (n - 48)
  else if (65 <=? n) && (n <=? 70) then Some (n - 55)
  else if (97 <=? n) && (n <=? 102) then Some (n - 87)
  else None.

Definition hex4 (cs : list ascii) : option (Z * list ascii) :=
  match cs with
  | a :: b :: c :: d :: r =>
      match hex_of a, hex_of b, hex_of c, hex_of d with
      | Some a, Some b, Some c, Some d =>
          Some (((a * 16 + b) * 16 + c) * 16 + d, r)
      | _, _, _, _ => None
      end
  | _ => None
  end.

(** Strings are kept as UTF-8 bytes. *)
Definition utf8 (cp : Z) : list ascii :=
  if cp <? 128 then [chr cp]
  else if cp <? 2048 then [chr (192 + cp / 64); chr (128 + cp mod 64)]
  else if cp <? 65536 then
    [chr (224 + cp / 4096); chr (128 + cp / 64 mod 64); chr (128 + cp mod 64)]
  else
    [chr (240 + cp / 262144); chr (128 + cp / 4096 mod 64);
     chr (128 + cp / 64 mod 64); chr (128 + cp mod 64)].

Definition simple_escape (c : ascii) : option ascii :=
  let n := code c in
  if n =? 34 then Some (chr 34)          (* quotation mark *)
  else if n =? 92 then Some (chr 92)     (* reverse solidus *)
  else if n =? 47 then Some (chr 47)     (* solidus *)
  else if n =? 98 then Some (chr 8)      (* b: backspace *)
  else if n =? 102 then Some (chr 12)    (* f: form feed *)
  else if n =? 110 then Some (chr 10)    (* n: line feed *)
  else if n =? 114 then Some (chr 13)    (* r: carriage return *)
  else if n =? 116 then Some (chr 9)     (* t: tab *)
  else None.

(** The characters after an opening quote, up to the closing one. *)
Fixpoint parse_chars (fuel : nat) (cs acc : list ascii)
  : option (string * list ascii) :=
  match fuel with
  | O => None
  | S fuel =>
      match cs with
      | [] => None
      | c :: r =>
          if code c =? 34 then Some (string_of_list_ascii (rev acc), r)
          else if code c <? 32 then None
          else if code c =? 92 then
            match r with
            | [] => None
            | e :: r1 =>
                if code e =? 117 then
                  match hex4 r1 with
                  | None => None
                  | Some (hi, r2) =>
                      let paired :=
                        if (55296 <=? hi) && (hi <=? 56319) then
                          match r2 with
                          | b :: u :: r3 =>
                              if (code b =? 92) && (code u =? 117) then
                                match hex4 r3 with
                                | Some (lo, r4) =>
                                    if (56320 <=? lo) && (lo <=? 57343)
                                    then Some (65536 + (hi - 55296) * 1024
                                               + (lo - 56320), r4)
                                    else None
                                | None => None
                                end
                              else None
                          | _ => None
                          end
                        else None in
                      match paired with
                      | Some (cp, r4) => parse_chars fuel r4 (rev (utf8 cp) ++ acc)
                      | None => parse_chars fuel r2 (rev (utf8 hi) ++ acc)
                      end
                  end
                else
                  match simple_escape e with
                  | Some x => parse_chars fuel r1 (x :: acc)
                  | None => None
                  end
            end
          else parse_chars fuel r (c :: acc)
      end
  end.

Fixpoint strip_prefix (p cs : list ascii) : option (list ascii) :=
  match p, cs with
  | [], _ => Some cs
  | a :: p', c :: r => if Ascii.eqb a c then strip_prefix p' r else None
  | _ :: _, [] => None
  end.

(** A repeated member name replaces the earlier value and keeps its
    position. *)
Fixpoint set_member (k : string) (v : value) (o : list (string * value))
  : list (string * value) :=
  match o with
  | [] => [(k, v)]
  | (k', v') :: r =>
      if String.eqb k k' then (k, v) :: r else (k', v') :: set_member k v r
  end.

Fixpoint parse_value (fuel : nat) (cs : list ascii)
  : option (value * list ascii) :=
  match fuel with
  | O => None
  | S fuel =>
      match skip_ws cs with
      | [] => None
      | c :: r =>
          let n := code c in
          if n =? 123 then                                      (* { *)
            match skip_ws r with
            | c' :: r' =>
                if code c' =? 125 then Some (JObj [], r')
                else parse_members fuel (c' :: r') []
            | [] => None
            end
          else if n =? 91 then                                  (* [ *)
            match skip_ws r with
            | c' :: r' =>
                if code c' =? 93 then Some (JArr [], r')
                else parse_elements fuel (c' :: r') []
            | [] => None
            end
          else if n =? 34 then                                  (* quote *)
            match parse_chars (S (length r)) r [] with
            | Some (s, r') => Some (JStr s, r')
            | None => None
            end
          else if n =? 116 then
            option_map (pair (JBool true))
                       (strip_prefix (list_ascii_of_string "true") (c :: r))
          else if n =? 102 then
            option_map (pair (JBool false))
                       (strip_prefix (list_ascii_of_string "false") (c :: r))
          else if n =? 110 then
            option_map (pair JNull)
                       (strip_prefix (list_ascii_of_string "null") (c :: r))
          else
            match parse_number (c :: r) with
            | Some (x, r') => Some (JNum x, r')
            | None => None
            end
      end
  end
with parse_elements (fuel : nat) (cs : list ascii) (acc : list value)
  : option (value * list ascii) :=
  match fuel with
  | O => None
  | S fuel =>
      match parse_value fuel cs with
      | None => None
      | Some (v, r) =>
          match skip_ws r with
          | c :: r' =>
              if code c =? 44 then parse_elements fuel r' (v :: acc)
              else if code c =? 93 then Some (JArr (rev (v :: acc)), r')
              else None
          | [] => None
          end
      end
  end
with parse_members (fuel : nat) (cs : list ascii) (acc : list (string * value))
  : option (value * list ascii) :=
  match fuel with
  | O => None
  | S fuel =>
      match skip_ws cs with
      | q :: r0 =>
          if code q =? 34 then
            match parse_chars (S (length r0)) r0 [] with
            | None => None
            | Some (k, r1) =>
                match skip_ws r1 with
                | colon :: r2 =>
                    if code colon =? 58 then
                      match parse_value fuel r2 with
                      | None => None
                      | Some (v, r3) =>
                          let acc' := set_member k v acc in
                          match skip_ws r3 with
                          | c :: r4 =>
                              if code c =? 44 then parse_members fuel r4 acc'
                              else if code c =? 125 then Some (JObj acc', r4)
                              else None
                          | [] => None
                          end
                      end
                    else None
                | [] => None
                end
            end
          else None
      | [] => None
      end
  end.

(** [JSON.parse(text)]: [None] stands for the [SyntaxError] it throws. *)
Definition parse (text : string) : option value :=
  let cs := list_ascii_of_string text in
  match parse_value (2 * S (length cs)) cs with
  | Some (v, rest) =>
      match skip_ws rest with
      | [] => Some v
      | _ :: _ => None
      end
  | None => None
  end.

End JSON.

(* ================================================================== *)
(** * The [App] component: state, effects and the socket handlers       *)
(* ================================================================== *)

Module App.
Import JS.

Inductive exn : Type := SyntaxError.

(** The two sockets of the component, [waveformWs] and [detectionWs]. *)
Inductive stream : Type := Waveforms | Detections.

#[export] Instance stream_eq_dec : EqDecision stream.
Proof. solve_decision. Defined.

(** What a handler can do to the outside: write to the console, close a
    socket. *)
Inductive effect : Type :=
| console_log (msg : string)
| ws_close (s : stream).

Inductive completion (A : Type) : Type :=
| Normal (a : A)
| Throw (e : exn).
Arguments Normal {A} a.
Arguments Throw {A} e.

Section Component.
(** The handlers store what [JSON.parse] returns without looking inside
    it, so the component is written over any type of parsed values. *)
Context {value : Type}.
Variable JSON_parse : string -> option value.

(** The three [useState] cells. *)
Record state : Type := {
  waveformData : list value;
  detections : list value;
  connectionStatus : gmap string string
}.

Record world : Type := {
  component : state;
  effects : list effect
}.

Definition initial_state : state := {|
  waveformData := [];
  detections := [];
  connectionStatus :=
    <["detections" := "disconnected"]>
      (<["waveforms" := "disconnected"]> ∅)
|}.

Definition initial_world : world :=
  {| component := initial_state; effects := [] |}.

(** Handlers run in a state monad with exceptions; a thrown exception
    leaves the world as it was at the throw. *)
Definition M (A : Type) : Type := world -> completion A * world.

Definition ret {A} (a : A) : M A := fun w => (Normal a, w).
Definition throw {A} (e : exn) : M A := fun w => (Throw e, w).
Definition bind {A B} (m : M A) (k : A -> M B) : M B :=
  fun w => match m w with
           | (Normal a, w') => k a w'
           | (Throw e, w') => (Throw e, w')
           end.

Notation "'let*' x := m 'in' k" := (bind m (fun x => k))
  (at level 10, x name, m at level 100, k at level 200).
Notation "m >>> k" := (bind m (fun _ => k))
  (at level 95, right associativity).

Definition emit (e : effect) : M unit :=
  fun w => (Normal tt,
            {| component := component w; effects := effects w ++ [e] |}).

Definition set_state (f : state -> state) : M unit :=
  fun w => (Normal tt,
            {| component := f (component w); effects := effects w |}).

(** The state setters, called with an updater function. *)
Definition setWaveformData (f : list value -> list value) : M unit :=
  set_state (fun s => {| waveformData := f (waveformData s);
                         detections := detections s;
                         connectionStatus := connectionStatus s |}).

Definition setDetections (f : list value -> list value) : M unit :=
  set_state (fun s => {| waveformData := waveformData s;
                         detections := f (detections s);
                         connectionStatus := connectionStatus s |}).

Definition setConnectionStatus
    (f : gmap string string -> gmap string string) : M unit :=
  set_state (fun s => {| waveformData := waveformData s;
                         detections := detections s;
                         connectionStatus := f (connectionStatus s) |}).

Definition parse (text : string) : M value :=
  match JSON_parse text with
  | Some v => ret v
  | None => throw SyntaxError
  end.

(** *** [waveformWs] *)

Definition waveformWs_onopen : M unit :=
  emit (console_log "Connected to waveform stream") >>>
  setConnectionStatus (fun prev => <["waveforms" := "connected"]> prev).

Definition waveformWs_onmessage (event_data : string) : M unit :=
  let* data := parse event_data in
  setWaveformData (fun prev => Array_slice prev (-100) None ++ [data]).

Definition waveformWs_onclose : M unit :=
  emit (console_log "Disconnected from waveform stream") >>>
  setConnectionStatus (fun prev => <["waveforms" := "disconnected"]> prev).

(** *** [detectionWs] *)

Definition detectionWs_onopen : M unit :=
  emit (console_log "Connected to detection stream") >>>
  setConnectionStatus (fun prev => <["detections" := "connected"]> prev).

Definition detectionWs_onmessage (event_data : string) : M unit :=
  let* data := parse event_data in
  setDetections (fun prev => data :: Array_slice prev 0 (Some 49)).

Definition detectionWs_onclose : M unit :=
  emit (console_log "Disconnected from detection stream") >>>
  setConnectionStatus (fun prev => <["detections" := "disconnected"]> prev).

(** *** Cleanup on unmount *)

Definition cleanup : M unit :=
  emit (ws_close Waveforms) >>> emit (ws_close Detections).

(** *** Delivery of socket events

    The runtime calls the handler installed for the event.  An exception
    that escapes a handler ends that call; the event loop reports it as
    uncaught and goes on with the next event. *)

Inductive event : Type :=
| Open (s : stream)
| Message (s : stream) (data : string)
| Close (s : stream).

Definition handler (ev : event) : M unit :=
  match ev with
  | Open Waveforms => waveformWs_onopen
  | Message Waveforms data => waveformWs_onmessage data
  | Close Waveforms => waveformWs_onclose
  | Open Detections => detectionWs_onopen
  | Message Detections data => detectionWs_onmessage data
  | Close Detections => detectionWs_onclose
  end.

Record running : Type := {
  now : world;
  uncaught : list exn
}.

Definition dispatch (r : running) (ev : event) : running :=
  match handler ev (now r) with
  | (Normal _, w) => {| now := w; uncaught := uncaught r |}
  | (Throw e, w) => {| now := w; uncaught := uncaught r ++ [e] |}
  end.

Definition run (evs : list event) : running :=
  foldl dispatch {| now := initial_world; uncaught := [] |} evs.

(** *** What [App] renders from the state *)

Inductive waveform_display : Type :=
| waiting_for_waveform_data
| WaveformChart_with (data : option value).

(** [waveformData.length > 0 ? <WaveformChart data={waveformData[waveformData.length - 1]} /> : ...];
    an index outside the array reads [undefined], here [None]. *)
Definition display (s : state) : waveform_display :=
  if (0 <? length (waveformData s))%nat
  then WaveformChart_with (waveformData s !! (length (waveformData s) - 1)%nat)
  else waiting_for_waveform_data.

(** A status span, as its class and its text:
    [<span className={status === 'connected' ? ... : ...}>Label: {status}</span>]. *)
Definition status_span (label key : string) (s : state) : string * string :=
  (if bool_decide (connectionStatus s !! key = Some "connected")
   then "status-connected" else "status-disconnected",
   (label ++ ": " ++ default EmptyString (connectionStatus s !! key))%string).

Definition connection_status_spans (s : state) : list (string * string) :=
  [status_span "Waveforms" "waveforms" s;
   status_span "Detections" "detections" s].

(** *** Vocabulary for the statements below *)

Definition status_key (s : stream) : string :=
  match s with Waveforms => "waveforms" | Detections => "detections" end.

(** The values a stream has pushed, in arrival order: the payloads of
    its messages that parse. *)
Definition pushed (s : stream) (evs : list event) : list value :=
  omap (fun ev => match ev with
                  | Message s' data =>
                      if bool_decide (s' = s) then JSON_parse data else None
                  | _ => None
                  end) evs.

(** The newest entry of the buffer of a stream: the end of
    [waveformData], the front of [detections]. *)
Definition newest (s : stream) (st : state) : option value :=
  match s with
  | Waveforms => last (waveformData st)
  | Detections => head (detections st)
  end.

(** A lifecycle event of a stream and the status it announces. *)
Definition lifecycle_event (s : stream) (opened : bool) : event :=
  if opened then Open s else Close s.

Definition announced (opened : bool) : string :=
  if opened then "connected" else "disconnected".

(** The status announced by the lifecycle events of a stream. *)
Definition lifecycle (s : stream) (evs : list event) : list string :=
  omap (fun ev => match ev with
                  | Open s' => if bool_decide (s' = s)
                               then Some "connected" else None
                  | Close s' => if bool_decide (s' = s)
                                then Some "disconnected" else None
                  | Message _ _ => None
                  end) evs.
(** Events that carry a payload. *)
Definition is_message (ev : event) : bool :=
  match ev with
  | Message _ _ => true
  | Open _ | Close _ => false
  end.

(** A message whose payload [JSON.parse] rejects. *)
Definition malformed (ev : event) : bool :=
  match ev with
  | Message _ data =>
      match JSON_parse data with Some _ => false | None => true end
  | Open _ | Close _ => false
  end.

(** The console line of a lifecycle event. *)
Definition logged (ev : event) : option effect :=
  match ev with
  | Open Waveforms => Some (console_log "Connected to waveform stream")
  | Close Waveforms => Some (console_log "Disconnected from waveform stream")
  | Open Detections => Some (console_log "Connected to detection stream")
  | Close Detections => Some (console_log "Disconnected from detection stream")
  | Message _ _ => None
  end.

(** The status a stream has after the given events. *)
Definition status_after (s : stream) (evs : list event) : string :=
  default "disconnected" (last (lifecycle s evs)).
End Component.

Arguments state : clear implicits.
Arguments world : clear implicits.
Arguments running : clear implicits.
Arguments M : clear implicits.

End App.

(* ================================================================== *)
(** * [WaveformChart]: the canvas effect                                 *)
(* ================================================================== *)

Module WaveformChart.
Import JS.

Section Chart.
Context {num : Type} `{JSNumber num}.

Record Station : Type := {
  network : option string;
  station_code : option string;
  channel : option string
}.

(** One message of the waveform stream.  A field the message may lack is
    an [option]. *)
Record WaveformSample : Type := {
  station : option Station;
  sampling_rate : option num;
  event_id : option string;
  data : option (list num)
}.

(** Calls on the 2D context, in the order they are made. *)
Inductive ctx_call : Type :=
| fillStyle (colour : string)
| fillRect (x y w h : num)
| strokeStyle (colour : string)
| lineWidth (w : num)
| beginPath
| moveTo (x y : num)
| lineTo (x y : num)
| stroke.

(** [<canvas width={800} height={300} />] *)
Definition width : num := num_of_Z 800.
Definition height : num := num_of_Z 300.

(** [data.data.slice(0, 500)] *)
Definition waveformData (samples : list num) : list num :=
  Array_slice samples 0 (Some 500).

(** [width / waveformData.length] *)
Definition step (samples : list num) : num :=
  num_div width (num_of_Z (Z.of_nat (length (waveformData samples)))).

(** [Math.max(...waveformData.map(Math.abs))] *)
Definition maxAmplitude (samples : list num) : num :=
  Math_max (map Math_abs (waveformData samples)).

(** [(maxAmplitude || 1)] *)
Definition divisor (samples : list num) : num :=
  or_else (maxAmplitude samples) (num_of_Z 1).

(** [(height / 2) * 0.8 / (maxAmplitude || 1)] *)
Definition scale (samples : list num) : num :=
  num_div (num_mul (num_div height (num_of_Z 2)) (num_of_decimal 8 (-1)))
          (divisor samples).

(** The body of [waveformData.forEach((value, index) => ...)], from
    [index] on. *)
Fixpoint forEach_point (step scale : num) (index : nat) (l : list num)
  : list ctx_call :=
  match l with
  | [] => []
  | value :: rest =>
      let x := num_mul (num_of_Z (Z.of_nat index)) step in
      let y := num_sub (num_div height (num_of_Z 2)) (num_mul value scale) in
      (if Nat.eqb index 0 then moveTo x y else lineTo x y)
      :: forEach_point step scale (S index) rest
  end.

Definition clear_canvas : list ctx_call :=
  [fillStyle "#1a1a1a"; fillRect (num_of_Z 0) (num_of_Z 0) width height].

Definition center_line : list ctx_call :=
  [strokeStyle "#444"; lineWidth (num_of_Z 1); beginPath;
   moveTo (num_of_Z 0) (num_div height (num_of_Z 2));
   lineTo width (num_div height (num_of_Z 2));
   stroke].

(** The effect of the component for its [data] prop; [None] is a prop
    that is [null]. *)
Definition draw (prop : option WaveformSample) : list ctx_call :=
  match prop with
  | None => []
  | Some sample =>
      match data sample with
      | None => []
      | Some samples =>
          clear_canvas
          ++ [strokeStyle "#00ff88"; lineWidth (num_of_decimal 15 (-1));
              beginPath]
          ++ forEach_point (step samples) (scale samples) 0
                           (waveformData samples)
          ++ [stroke]
          ++ center_line
      end
  end.

(** *** Vocabulary for the statements below *)

(** The pixel of a path call. *)
Definition point_of (c : ctx_call) : option (num * num) :=
  match c with
  | moveTo x y | lineTo x y => Some (x, y)
  | _ => None
  end.

(** A polyline through the given pixels: move to the first, draw a line
    to each of the others in turn. *)
Definition polyline (pts : list (num * num)) : list ctx_call :=
  match pts with
  | [] => []
  | (x, y) :: rest => moveTo x y :: map (fun p => lineTo p.1 p.2) rest
  end.

(** The waveform path of a sample array: the calls between [beginPath]
    and [stroke]. *)
Definition path (samples : list num) : list ctx_call :=
  forEach_point (step samples) (scale samples) 0 (waveformData samples).

(** The x coordinates of the path calls, in order. *)
Definition abscissas (calls : list ctx_call) : list num :=
  omap (fun c => fst <$> point_of c) calls.

Definition sample_of (samples : list num) : WaveformSample :=
  {| station := None; sampling_rate := None; event_id := None;
     data := Some samples |}.
End Chart.

Arguments Station : clear implicits.
Arguments WaveformSample : clear implicits.
Arguments ctx_call : clear implicits.

End WaveformChart.

(* ================================================================== *)
(** * [DetectionCard]                                                   *)
(* ================================================================== *)

Module DetectionCard.
Import JS.
Local Open Scope string_scope.

Record Pick : Type := {
  phase : string;
  probability : float
}.

Record ModelResult : Type := {
  detected : bool;
  confidence : float;
  picks : option (list Pick)
}.

(** [confidence_diff] can be missing, [null] or a number. *)
Inductive optional_number : Type :=
| missing
| null
| number (x : float).

Record Comparison : Type := {
  agreement : option bool;
  confidence_diff : optional_number
}.

Inductive Timestamp : Type :=
| epoch_millis (ms : float)
| date_string (s : string)
| no_timestamp.

(** One message of the detection stream.  [models] lists the properties
    of the object in insertion order, each model name once. *)
Record DetectionEvent : Type := {
  event_id : option string;
  timestamp : Timestamp;
  models : option (list (string * ModelResult));
  comparison : option Comparison
}.

(** What the card shows. *)
Record model_result : Type := {
  heading : string;
  status_class : string;
  status_text : string;
  confidence_text : string;
  pick_badges : option (list string)
}.

Record card : Type := {
  className : string;
  event_text : string;
  time_text : string;
  badge_class : string;
  badge_text : string;
  models_comparison : list model_result;
  comparison_stats : option string
}.

Section Card.
(** Conversions left to the runtime: the time of day in the user's
    locale, and the general Number-to-String conversion [toFixed] falls
    back to for large magnitudes. *)
Variable toLocaleTimeString : Timestamp -> string.
Variable Number_toString : float -> string.

Definition percent (x : float) (digits : nat) : string :=
  toFixed Number_toString (x * 100)%float digits.

(** [detection.comparison || {}] *)
Definition comparison_or_empty (detection : DetectionEvent) : Comparison :=
  match comparison detection with
  | Some c => c
  | None => {| agreement := None; confidence_diff := missing |}
  end.

(** [comparison.agreement ? a : b]; a missing flag is falsy. *)
Definition if_agreement {A : Type} (c : Comparison) (a b : A) : A :=
  match agreement c with
  | Some true => a
  | Some false | None => b
  end.

Definition pick_badge (pick : Pick) : string :=
  phase pick ++ ": " ++ percent (probability pick) 0 ++ "%".

Definition model_block (modelName : string) (result : ModelResult)
  : model_result := {|
  heading := modelName;
  status_class :=
    "detection-status "
    ++ (if detected result then "detected" else "not-detected");
  status_text :=
    if detected result then "🔴 DETECTED" else "🟢 No Detection";
  confidence_text := "Confidence: " ++ percent (confidence result) 1 ++ "%";
  pick_badges :=
    match picks result with
    | Some l => if (0 <? length l)%nat then Some (map pick_badge l) else None
    | None => None
    end
|}.

Definition DetectionCard (detection : DetectionEvent) : card :=
  let models := default [] (models detection) in
  let comparison := comparison_or_empty detection in
  let modelNames := Object_keys models in
  {| className :=
       "detection-card "
       ++ if_agreement comparison "agreement" "disagreement";
     event_text :=
       "Event: "
       ++ from_option (fun id => String_slice id 0 (Some 8)) EmptyString
                      (event_id detection)
       ++ "...";
     time_text := toLocaleTimeString (timestamp detection);
     badge_class :=
       "agreement-badge " ++ if_agreement comparison "agree" "disagree";
     badge_text :=
       if_agreement comparison "✓ Agreement" "✗ Disagreement";
     models_comparison :=
       omap (fun modelName =>
               model_block modelName <$> get_property models modelName)
            modelNames;
     comparison_stats :=
       match confidence_diff comparison with
       | missing => None
       | null => Some ("Confidence Δ: " ++ percent 0 1 ++ "%")
       | number x => Some ("Confidence Δ: " ++ percent x 1 ++ "%")
       end
  |}.

(** [DetectionFeed]: one card per buffered detection, in buffer order. *)
Definition DetectionFeed (detections : list DetectionEvent) : list card :=
  map DetectionCard detections.
End Card.


Section Feed.
Variable toLocaleTimeString : Timestamp -> string.
Variable Number_toString : float -> string.

End Feed.

(** The event of concrete scenario 2. *)
Definition scenario_2 : DetectionEvent := {|
  event_id := None;
  timestamp := no_timestamp;
  models := Some [
    ("modelA", {| detected := true; confidence := 0.92;
                  picks := Some [ {| phase := "P"; probability := 0.8 |} ] |});
    ("modelB", {| detected := false; confidence := 0.3; picks := Some [] |})
  ];
  comparison := Some {| agreement := Some false;
                        confidence_diff := number 0.62 |}
|}.

(** The same event with its [comparison] field left out. *)
Definition scenario_2_without_comparison : DetectionEvent := {|
  event_id := event_id scenario_2;
  timestamp := timestamp scenario_2;
  models := models scenario_2;
  comparison := None
|}.

(** *** Vocabulary for the statements below *)

(** The truth value of [comparison.agreement] as the message gives it. *)
Definition agreement_flag (detection : DetectionEvent) : bool :=
  match comparison detection with
  | Some c => match agreement c with Some b => b | None => false end
  | None => false
  end.

(** Whether the message has a [comparison.confidence_diff]. *)
Definition has_confidence_diff (detection : DetectionEvent) : bool :=
  match comparison detection with
  | Some c => match confidence_diff c with missing => false | _ => true end
  | None => false
  end.

Definition with_models (detection : DetectionEvent)
    (m : option (list (string * ModelResult))) : DetectionEvent := {|
  event_id := event_id detection;
  timestamp := timestamp detection;
  models := m;
  comparison := comparison detection
|}.

Definition with_comparison (detection : DetectionEvent)
    (c : option Comparison) : DetectionEvent := {|
  event_id := event_id detection;
  timestamp := timestamp detection;
  models := models detection;
  comparison := c
|}.

End DetectionCard.

(* ================================================================== *)
(** * The hourly aggregate of the [detections] table                     *)
(* ================================================================== *)

Module Sql.

(** A row of [detections].  [created_at] is a [TIMESTAMP]: microseconds
    since 2000-01-01 00:00. *)
Record detection : Type := {
  id : string;
  event_id : string;
  model_name : string;
  detected : bool;
  confidence : float;
  threshold : float;
  processing_time_ms : float;
  picks : option string;
  metadata : option string;
  agreement : option bool;
  confidence_diff : option float;
  created_at : Z
}.

Definition hour : Z := 3600 * 1000000.

(** [time_bucket(width, ts)]: the start of the bucket that holds [ts];
    buckets are aligned on Monday 2000-01-03. *)
Definition bucket_origin : Z := 2 * 24 * hour.

Definition time_bucket (width ts : Z) : Z :=
  ts - (ts - bucket_origin) mod width.

Definition group_key (r : detection) : Z * string :=
  (time_bucket hour (created_at r), model_name r).

(** Transition state of one group: [COUNT( * )], the [SUM] over the
    [CASE], and for each [AVG] the running sum (the count is shared). *)
Record accum : Type := {
  n_rows : Z;
  n_positive : Z;
  sum_confidence : float;
  sum_processing_time : float
}.

Definition accum_init : accum :=
  {| n_rows := 0; n_positive := 0;
     sum_confidence := 0; sum_processing_time := 0 |}.

Definition accum_step (a : accum) (r : detection) : accum :=
  {| n_rows := n_rows a + 1;
     n_positive := n_positive a + (if detected r then 1 else 0);
     sum_confidence := (sum_confidence a + confidence r)%float;
     sum_processing_time := (sum_processing_time a + processing_time_ms r)%float |}.

(** A row of [detection_stats_hourly], without its key columns. *)
Record stats : Type := {
  total_detections : Z;
  positive_detections : Z;
  avg_confidence : float;
  avg_processing_time : float
}.

Definition finalize (a : accum) : stats :=
  {| total_detections := n_rows a;
     positive_detections := n_positive a;
     avg_confidence := (sum_confidence a / JS.double_of_Z (n_rows a))%float;
     avg_processing_time :=
       (sum_processing_time a / JS.double_of_Z (n_rows a))%float |}.

(** [GROUP BY bucket, model_name]: one pass over the rows, one transition
    state per group. *)
Definition group_rows (rows : list detection) : gmap (Z * string) accum :=
  foldl (fun groups r =>
           <[group_key r := accum_step (default accum_init (groups !! group_key r)) r]>
             groups)
        ∅ rows.

(** The query of the view: its rows, by [(bucket, model_name)]. *)
Definition detection_stats_hourly (rows : list detection)
  : gmap (Z * string) stats :=
  finalize <$> group_rows rows.

(** A refresh over the window [lo, hi): the buckets that lie inside the
    window are recomputed from the table, the others keep what was
    materialized.  The view is created [WITH NO DATA]. *)
Definition inside (lo hi : Z) (bucket : Z) : bool :=
  (lo <=? bucket) && (bucket + hour <=? hi).

Definition materialized_init : gmap (Z * string) stats := ∅.

Definition refresh (lo hi : Z) (rows : list detection)
    (materialized : gmap (Z * string) stats) : gmap (Z * string) stats :=
  filter (fun kv => inside lo hi kv.1.1 = true) (detection_stats_hourly rows)
  ∪ filter (fun kv => inside lo hi kv.1.1 = false) materialized.

(** *** Vocabulary for the statements below *)

(** The rows of one group, in table order. *)
Definition group (k : Z * string) (rows : list detection) : list detection :=
  filter (fun r => group_key r = k) rows.

(** Sum of a float column over rows, in row order. *)
Definition column_sum (f : detection -> float) (rows : list detection) : float :=
  foldl (fun acc r => (acc + f r)%float) 0%float rows.

Definition average (f : detection -> float) (rows : list detection) : float :=
  (column_sum f rows / JS.double_of_Z (Z.of_nat (length rows)))%float.

(** The aggregate row the specification describes for the rows of one
    group: the number of rows, the number of rows with [detected = true],
    and the two averages. *)
Definition group_stats (g : list detection) : stats :=
  {| total_detections := Z.of_nat (length g);
     positive_detections :=
       Z.of_nat (length (filter (fun r => detected r = true) g));
     avg_confidence := average confidence g;
     avg_processing_time := average processing_time_ms g |}.

(** The sum of an integer column of the view over all its rows. *)
Definition sum_over (f : stats -> Z) (view : gmap (Z * string) stats) : Z :=
  map_fold (fun _ row acc => f row + acc) 0 view.

(** The rows of concrete scenario 3: one model, one hour, detected
    true, true, false. *)
Definition scenario_3_row (n : Z) (d : bool) (c : float) : detection :=
  {| id := "row"; event_id := "evt"; model_name := "modelA"; detected := d;
     confidence := c; threshold := 0.5; processing_time_ms := 12;
     picks := None; metadata := None; agreement := None;
     confidence_diff := None;
     created_at := 7 * hour + n * 60 * 1000000 |}.

Definition scenario_3 : list detection :=
  [scenario_3_row 5 true 0.9; scenario_3_row 20 true 0.75;
   scenario_3_row 50 false 0.25].

End Sql.

(* ================================================================== *)
(** * Properties of the runtime primitives                              *)
(* ================================================================== *)

Module JSFacts.
Import JS.

Lemma rel_index_nonneg (len : nat) (i : Z) :
  0 <= i -> rel_index len i = Nat.min (Z.to_nat i) len.
Proof.
  intros Hi. unfold rel_index.
  destruct (Z.ltb_spec i 0); lia.
Qed.

Lemma rel_index_neg (len : nat) (i : Z) :
  i < 0 -> rel_index len i = (len - Z.to_nat (- i))%nat.
Proof.
  intros Hi. unfold rel_index.
  destruct (Z.ltb_spec i 0); lia.
Qed.

(** [l.slice(0, n)] keeps the first [n] elements. *)
Lemma slice_prefix {A} (l : list A) (n : nat) :
  Array_slice l 0 (Some (Z.of_nat n)) = take n l.
Proof.
  unfold Array_slice.
  rewrite !rel_index_nonneg by lia.
  rewrite Nat2Z.id. simpl. rewrite drop_0, Nat.sub_0_r.
  destruct (Nat.le_ge_cases n (length l)).
  - by rewrite Nat.min_l.
  - rewrite Nat.min_r by done. by rewrite !take_ge by lia.
Qed.

(** [l.slice(-n)] keeps the last [n] elements. *)
Lemma slice_suffix {A} (l : list A) (n : nat) :
  (0 < n)%nat ->
  Array_slice l (- Z.of_nat n) None = drop (length l - n) l.
Proof.
  intros Hn. unfold Array_slice.
  rewrite rel_index_neg by lia.
  rewrite Z.opp_involutive, Nat2Z.id.
  apply take_ge. rewrite length_drop. lia.
Qed.

Lemma slice_length_le {A} (l : list A) (start : Z) (stop : option Z) :
  (length (Array_slice l start stop) <= length l)%nat.
Proof.
  unfold Array_slice. rewrite length_take, length_drop. lia.
Qed.

(** A few evaluations of the primitives. *)

Example slice_last_two : Array_slice [1; 2; 3; 4; 5] (-2) None = [4; 5].
Proof. reflexivity. Qed.

Example slice_short_array : Array_slice [1; 2; 3] (-100) None = [1; 2; 3].
Proof. reflexivity. Qed.

Example keys_indices_first :
  Object_keys [("b", 1); ("10", 2); ("a", 3); ("2", 4); ("01", 5)]%string
  = ["2"; "10"; "b"; "a"; "01"]%string.
Proof. reflexivity. Qed.

Example max_of_nothing : Math_max (@nil float) = neg_infinity.
Proof. reflexivity. Qed.

Example max_prefers_positive_zero :
  Prim2SF (Math_max [(-0)%float; 0%float]) = S754_zero false.
Proof. reflexivity. Qed.

Example toFixed_rounds_the_exact_value (fallback : float -> string) :
  toFixed fallback 1.005 2 = "1.00"%string
  /\ toFixed fallback 2.5 0 = "3"%string
  /\ toFixed fallback (-1.5) 0 = "-2"%string
  /\ toFixed fallback 0.000001 2 = "0.00"%string
  /\ toFixed fallback (0.3 * 100) 1 = "30.0"%string.
Proof. vm_compute. done. Qed.

Example parse_array :
  JSON.parse "[0, 1.5e1, -1, 0.25]" =
  Some (JSON.JArr [JSON.JNum 0; JSON.JNum 15; JSON.JNum (-1); JSON.JNum 0.25]).
Proof. vm_compute. reflexivity. Qed.

Example parse_rejects :
  JSON.parse "[1,]" = None /\ JSON.parse "01" = None
  /\ JSON.parse "{" = None /\ JSON.parse "nul" = None
  /\ JSON.parse "[1] 2" = None.
Proof. vm_compute. done. Qed.

End JSFacts.

(* ================================================================== *)
(** * Properties of the stream handlers                                 *)
(* ================================================================== *)

Module AppFacts.
Import JS App JSFacts.

Section Handlers.
Context {value : Type}.
Variable JSON_parse : string -> option value.

Local Abbreviation handler := (App.handler JSON_parse).
Local Abbreviation dispatch := (App.dispatch JSON_parse).
Local Abbreviation run := (App.run JSON_parse).
Local Abbreviation pushed := (App.pushed JSON_parse).

Ltac unfold_handlers :=
  unfold App.handler, waveformWs_onopen, waveformWs_onmessage,
    waveformWs_onclose, detectionWs_onopen, detectionWs_onmessage,
    detectionWs_onclose, setWaveformData, setDetections,
    setConnectionStatus, set_state, emit, parse, bind, ret, throw.

(** ** One call of a handler *)

Lemma onmessage_throws (s : stream) (raw : string) (w : world value) :
  JSON_parse raw = None ->
  handler (Message s raw) w = (Throw SyntaxError, w).
Proof.
  intros Hraw. destruct s; unfold_handlers; by rewrite Hraw.
Qed.

Lemma onmessage_waveform (raw : string) (v : value) (w : world value) :
  JSON_parse raw = Some v ->
  handler (Message Waveforms raw) w =
  (Normal tt,
   {| component :=
        {| waveformData :=
             drop (length (waveformData (component w)) - 100)
                  (waveformData (component w)) ++ [v];
           detections := detections (component w);
           connectionStatus := connectionStatus (component w) |};
      effects := effects w |}).
Proof.
  intros Hraw. unfold_handlers. rewrite Hraw. simpl.
  by rewrite (slice_suffix _ 100) by lia.
Qed.

Lemma onmessage_detection (raw : string) (v : value) (w : world value) :
  JSON_parse raw = Some v ->
  handler (Message Detections raw) w =
  (Normal tt,
   {| component :=
        {| waveformData := waveformData (component w);
           detections := v :: take 49 (detections (component w));
           connectionStatus := connectionStatus (component w) |};
      effects := effects w |}).
Proof.
  intros Hraw. unfold_handlers. rewrite Hraw. simpl.
  by rewrite (slice_prefix _ 49).
Qed.

Lemma lifecycle_handler (s : stream) (opened : bool) (w : world value) :
  exists log,
    handler (lifecycle_event s opened) w =
    (Normal tt,
     {| component :=
          {| waveformData := waveformData (component w);
             detections := detections (component w);
             connectionStatus :=
               <[status_key s := announced opened]>
                 (connectionStatus (component w)) |};
        effects := effects w ++ [console_log log] |}).
Proof.
  destruct s, opened; unfold_handlers; simpl; eauto.
Qed.

(** ** Runs *)

Lemma run_snoc (evs : list event) (ev : event) :
  run (evs ++ [ev]) = dispatch (run evs) ev.
Proof. unfold App.run. by rewrite foldl_app. Qed.

Lemma pushed_snoc (s : stream) (evs : list event) (ev : event) :
  pushed s (evs ++ [ev]) = pushed s evs ++ pushed s [ev].
Proof. unfold App.pushed. by rewrite omap_app. Qed.

Lemma lifecycle_snoc (s : stream) (evs : list event) (ev : event) :
  lifecycle s (evs ++ [ev]) = lifecycle s evs ++ lifecycle s [ev].
Proof. unfold App.lifecycle. by rewrite omap_app. Qed.

(** The state after delivering one more event. *)
Lemma dispatch_state (r : running value) (ev : event) :
  component (now (dispatch r ev)) = component (handler ev (now r)).2.
Proof.
  unfold App.dispatch. by destruct (handler ev (now r)) as [[]].
Qed.

Lemma keep_last_101 (p : list value) (v : value) :
  drop (length (drop (length p - 101) p) - 100) (drop (length p - 101) p) ++ [v]
  = drop (length (p ++ [v]) - 101) (p ++ [v]).
Proof.
  rewrite drop_drop, length_drop, length_app. simpl.
  destruct (Nat.le_gt_cases (length p) 100) as [Hle | Hgt].
  - replace (length p - 101 + (length p - (length p - 101) - 100))%nat
      with 0%nat by lia.
    replace (length p + 1 - 101)%nat with 0%nat by lia.
    by rewrite !drop_0.
  - replace (length p - 101 + (length p - (length p - 101) - 100))%nat
      with (length p - 100)%nat by lia.
    replace (length p + 1 - 101)%nat with (length p - 100)%nat by lia.
    rewrite drop_app_le by lia. done.
Qed.

(** The waveform buffer holds the last 101 pushed values, oldest first. *)
Lemma waveform_buffer (evs : list event) :
  waveformData (component (now (run evs))) =
  drop (length (pushed Waveforms evs) - 101) (pushed Waveforms evs).
Proof.
  induction evs as [| ev evs IH] using rev_ind; [done |].
  rewrite run_snoc, pushed_snoc, dispatch_state.
  destruct ev as [s | s raw | s].
  - destruct (lifecycle_handler s true (now (run evs))) as [log Hlog].
    change (lifecycle_event s true) with (Open s) in Hlog. rewrite Hlog.
    simpl. by rewrite app_nil_r.
  - destruct (JSON_parse raw) as [v |] eqn:Hraw.
    + destruct s.
      * rewrite (onmessage_waveform _ v) by done.
        unfold App.pushed at 2. simpl. rewrite Hraw. simpl.
        rewrite IH. apply keep_last_101.
      * rewrite (onmessage_detection _ v) by done.
        simpl. by rewrite app_nil_r.
    + rewrite onmessage_throws by done.
      unfold App.pushed at 2. simpl. rewrite Hraw.
      destruct (bool_decide (s = Waveforms)); simpl; by rewrite app_nil_r.
  - destruct (lifecycle_handler s false (now (run evs))) as [log Hlog].
    change (lifecycle_event s false) with (Close s) in Hlog. rewrite Hlog.
    simpl. by rewrite app_nil_r.
Qed.

(** The detection buffer holds the last 50 pushed values, newest first. *)
Lemma detection_buffer (evs : list event) :
  detections (component (now (run evs))) =
  take 50 (reverse (pushed Detections evs)).
Proof.
  induction evs as [| ev evs IH] using rev_ind; [done |].
  rewrite run_snoc, pushed_snoc, dispatch_state.
  destruct ev as [s | s raw | s].
  - destruct (lifecycle_handler s true (now (run evs))) as [log Hlog].
    change (lifecycle_event s true) with (Open s) in Hlog. rewrite Hlog.
    simpl. by rewrite app_nil_r.
  - destruct (JSON_parse raw) as [v |] eqn:Hraw.
    + destruct s.
      * rewrite (onmessage_waveform _ v) by done.
        simpl. by rewrite app_nil_r.
      * rewrite (onmessage_detection _ v) by done.
        unfold App.pushed at 2. simpl. rewrite Hraw. simpl.
        rewrite IH, reverse_snoc. simpl.
        by rewrite take_take.
    + rewrite onmessage_throws by done.
      unfold App.pushed at 2. simpl. rewrite Hraw.
      destruct (bool_decide (s = Detections)); simpl; by rewrite app_nil_r.
  - destruct (lifecycle_handler s false (now (run evs))) as [log Hlog].
    change (lifecycle_event s false) with (Close s) in Hlog. rewrite Hlog.
    simpl. by rewrite app_nil_r.
Qed.

Lemma last_drop_lt (l : list value) (k : nat) :
  (k < length l)%nat -> last (drop k l) = last l.
Proof.
  intros Hk. destruct l as [| x l _] using rev_ind; [simpl in Hk; lia |].
  rewrite length_app in Hk. simpl in Hk.
  rewrite drop_app_le by lia. by rewrite !last_snoc.
Qed.

Lemma status_key_inj (s s' : stream) :
  status_key s = status_key s' -> s = s'.
Proof. by destruct s, s'. Qed.

(** The status of a stream is the one announced by its last lifecycle
    event; before any, it is the initial [disconnected]. *)
Lemma status_after_run (s : stream) (evs : list event) :
  connectionStatus (component (now (run evs))) !! status_key s =
  Some (default "disconnected" (last (lifecycle s evs))).
Proof.
  induction evs as [| ev evs IH] using rev_ind.
  { by destruct s. }
  rewrite run_snoc, lifecycle_snoc, dispatch_state.
  assert (Hstep : forall s' opened,
    connectionStatus
      (component (handler (lifecycle_event s' opened) (now (run evs))).2)
      !! status_key s =
    Some (default "disconnected"
            (last (lifecycle s evs
                   ++ if bool_decide (s' = s) then [announced opened] else [])))).
  { intros s' opened.
    destruct (lifecycle_handler s' opened (now (run evs))) as [log ->].
    simpl. case_bool_decide as Hs.
    - subst s'. by rewrite lookup_insert_eq, last_snoc.
    - rewrite lookup_insert_ne by (intros Hk; by apply status_key_inj in Hk).
      by rewrite app_nil_r. }
  destruct ev as [s' | s' raw | s'].
  - change (Open s') with (lifecycle_event s' true).
    rewrite (Hstep s' true). unfold lifecycle. simpl.
    by destruct (bool_decide (s' = s)).
  - assert (Hkeep : connectionStatus
                     (component (handler (Message s' raw) (now (run evs))).2)
                   = connectionStatus (component (now (run evs)))).
    { destruct (JSON_parse raw) as [v |] eqn:Hraw.
      - destruct s'.
        + by rewrite (onmessage_waveform _ v).
        + by rewrite (onmessage_detection _ v).
      - by rewrite onmessage_throws. }
    rewrite Hkeep, IH. unfold lifecycle. simpl. by rewrite app_nil_r.
  - change (Close s') with (lifecycle_event s' false).
    rewrite (Hstep s' false). unfold lifecycle. simpl.
    by destruct (bool_decide (s' = s)).
Qed.

(** ** The claims on the channels *)

(** C1, as amended.  A payload that [JSON.parse] rejects makes the
    [onmessage] handler of either stream throw [SyntaxError]: nothing in
    the handler catches it, so the exception leaves the call and reaches
    the event loop, which records it as uncaught.  The throw happens
    before any state update: the buffers, the connection status and the
    effect trace are exactly as before (in particular no socket is
    closed), and the next payload that parses is pushed as usual. *)
Theorem malformed_payload_throws_state_kept
    (s : stream) (raw : string) (w : world value) :
  JSON_parse raw = None ->
  handler (Message s raw) w = (Throw SyntaxError, w)
  /\ (forall r : running value,
        now r = w ->
        dispatch r (Message s raw) =
        {| now := w; uncaught := uncaught r ++ [SyntaxError] |})
  /\ (forall (raw' : string) (v : value),
        JSON_parse raw' = Some v ->
        exists w',
          handler (Message s raw') (handler (Message s raw) w).2
          = (Normal tt, w')
          /\ newest s (component w') = Some v).
Proof.
  intros Hraw. pose proof (onmessage_throws s raw w Hraw) as Hthrow.
  split; [done |]. split.
  - intros r <-. unfold App.dispatch.
    by rewrite (onmessage_throws s raw (now r) Hraw).
  - intros raw' v Hraw'. rewrite Hthrow. cbn [snd]. destruct s.
    + rewrite (onmessage_waveform _ v) by done.
      eexists; split; [done |]. simpl. by rewrite last_snoc.
    + rewrite (onmessage_detection _ v) by done.
      eexists; split; [done |]. done.
Qed.

(** C2.  After any sequence of socket events the waveform buffer has at
    most 101 entries, and the chart is given the most recently pushed
    sample (the placeholder is shown while nothing has been pushed). *)
Theorem waveform_buffer_bounded_latest_rendered (evs : list event) :
  (length (waveformData (component (now (run evs)))) <= 101)%nat
  /\ display (component (now (run evs))) =
     match last (pushed Waveforms evs) with
     | Some v => WaveformChart_with (Some v)
     | None => waiting_for_waveform_data
     end.
Proof.
  unfold display. rewrite waveform_buffer.
  set (p := pushed Waveforms evs).
  split; [rewrite length_drop; lia |].
  rewrite length_drop.
  destruct (decide (length p = 0)%nat) as [H0 | Hn].
  - apply length_zero_iff_nil in H0. by rewrite H0.
  - replace (0 <? length p - (length p - 101))%nat with true
      by (symmetry; apply Nat.ltb_lt; lia).
    replace (length p - (length p - 101) - 1)%nat
      with (pred (length (drop (length p - 101) p)))
      by (rewrite length_drop; lia).
    rewrite <- last_lookup, last_drop_lt by lia.
    destruct (last p) as [v |] eqn:Hlast; [done |].
    apply last_None in Hlast. by subst p; rewrite Hlast in Hn.
Qed.

(** C3.  After any sequence of socket events the detection buffer has at
    most 50 entries, its entry at index 0 is the most recently pushed
    event, and the buffer lists the most recent pushes in reverse arrival
    order: the newest first, the oldest dropped at the back. *)
Theorem detection_buffer_bounded_newest_first (evs : list event) :
  (length (detections (component (now (run evs)))) <= 50)%nat
  /\ detections (component (now (run evs))) !! 0%nat
     = last (pushed Detections evs)
  /\ detections (component (now (run evs)))
     = take 50 (reverse (pushed Detections evs)).
Proof.
  rewrite detection_buffer.
  split; [rewrite length_take; lia |]. split; [| done].
  rewrite lookup_take_lt by lia.
  rewrite <- head_lookup, head_reverse. done.
Qed.

(** C10.  An open or close event of one stream sets that stream's entry of
    the status mapping to [connected] or [disconnected] and leaves every
    other entry, and both buffers, as they were; after any sequence of
    events the entry of a stream is the status announced by the last
    lifecycle event of that stream. *)
Theorem connection_status_last_event_wins (s : stream) :
  (forall (opened : bool) (w : world value),
     let st := component w in
     let st' := component (handler (lifecycle_event s opened) w).2 in
     (handler (lifecycle_event s opened) w).1 = Normal tt
     /\ connectionStatus st' !! status_key s = Some (announced opened)
     /\ (forall k, k ≠ status_key s ->
           connectionStatus st' !! k = connectionStatus st !! k)
     /\ waveformData st' = waveformData st
     /\ detections st' = detections st)
  /\ (forall evs : list event,
        connectionStatus (component (now (run evs))) !! status_key s =
        Some (default "disconnected" (last (lifecycle s evs)))).
Proof.
  split; [| apply status_after_run].
  intros opened w.
  destruct (lifecycle_handler s opened w) as [log ->]. simpl.
  split; [done |]. split; [by rewrite lookup_insert_eq |].
  split; [| done].
  intros k Hk. by rewrite lookup_insert_ne.
Qed.

End Handlers.

(** ** On the parser of the runtime *)

(** C1, as stated, fails: the payload [{] is not JSON, and the handler of
    the waveform stream does not complete normally on it. *)
Lemma malformed_payload_escapes_handler :
  ~ (forall (s : stream) (raw : string) (w : world JSON.value),
       JSON.parse raw = None ->
       exists w', handler JSON.parse (Message s raw) w = (Normal tt, w')).
Proof.
  intros Hcontained.
  destruct (Hcontained Waveforms "{" initial_world) as [w' Hw'].
  - vm_compute. reflexivity.
  - vm_compute in Hw'. discriminate Hw'.
Qed.

Lemma malformed_payload_witness :
  handler JSON.parse (Message Detections "[0, 1, -1") initial_world
  = (Throw SyntaxError, initial_world).
Proof.
  refine (proj1 (malformed_payload_throws_state_kept
                   JSON.parse Detections "[0, 1, -1" initial_world _)).
  vm_compute. reflexivity.
Defined.

End AppFacts.

(* ================================================================== *)
(** * Properties of the waveform renderer                               *)
(* ================================================================== *)

Module ChartFacts.
Import JS WaveformChart JSFacts.

Section AnyNumber.
Context {num : Type} `{JSNumber num}.

Lemma waveformData_take (samples : list num) :
  waveformData samples = take 500 samples.
Proof. apply (slice_prefix samples 500). Qed.

(** The pixel the loop computes for the value at [index]. *)
Lemma forEach_from_successor (st sc : num) (k : nat) (l : list num) :
  forEach_point st sc (S k) l =
  map (fun p => lineTo p.1 p.2)
      (imap (fun i value =>
               (num_mul (num_of_Z (Z.of_nat (S k + i))) st,
                num_sub (num_div height (num_of_Z 2)) (num_mul value sc)))
            l).
Proof.
  revert k. induction l as [| value l IH]; intros k; [done |].
  simpl. rewrite Nat.add_0_r. f_equal.
  rewrite IH. f_equal. apply imap_ext. intros i x _. simpl.
  by replace (S (k + S i)) with (S (S (k + i))) by lia.
Qed.

Lemma forEach_polyline (st sc : num) (l : list num) :
  forEach_point st sc 0 l =
  polyline
    (imap (fun i value =>
             (num_mul (num_of_Z (Z.of_nat i)) st,
              num_sub (num_div height (num_of_Z 2)) (num_mul value sc)))
          l).
Proof.
  destruct l as [| value l]; [done |].
  simpl. f_equal. rewrite forEach_from_successor. f_equal.
Qed.

(** C5.  For a sample that carries a [data] array, the effect clears the
    canvas, strokes one path and then the reference line.  The path is
    built from the first 500 samples (all of them when there are fewer):
    the point of index [i] with value [v] is at [x = i * (W / count)],
    [y = H/2 - v * scale], [count] being the number of samples kept; the
    points are joined in index order, a move to the first and a line to
    each of the following ones; there is no point when [data] is empty.
    The reference line goes from [(0, H/2)] to [(W, H/2)] whatever the
    samples are. *)
Theorem draw_polyline_of_first_500
    (sample : WaveformSample num) (samples : list num) :
  data sample = Some samples ->
  let kept := take 500 samples in
  let count := num_of_Z (Z.of_nat (length kept)) in
  let half := num_div height (num_of_Z 2) in
  let pixel (i : nat) (v : num) :=
    (num_mul (num_of_Z (Z.of_nat i)) (num_div width count),
     num_sub half (num_mul v (scale samples))) in
  draw (Some sample) =
    [fillStyle "#1a1a1a"; fillRect (num_of_Z 0) (num_of_Z 0) width height;
     strokeStyle "#00ff88"; lineWidth (num_of_decimal 15 (-1)); beginPath]
    ++ polyline (imap pixel kept)
    ++ [stroke;
        strokeStyle "#444"; lineWidth (num_of_Z 1); beginPath;
        moveTo (num_of_Z 0) half; lineTo width half; stroke]
  /\ (samples = [] -> polyline (imap pixel kept) = []).
Proof.
  intros Hdata kept count half pixel. split.
  - unfold draw. rewrite Hdata.
    rewrite forEach_polyline. unfold step.
    rewrite waveformData_take. done.
  - intros ->. done.
Qed.

End AnyNumber.

(** ** In doubles *)

Local Open Scope float_scope.

Lemma is_zero_inv (x : float) :
  PrimFloat.is_zero x = true -> x = 0 \/ x = -0.
Proof.
  unfold PrimFloat.is_zero. rewrite FloatAxioms.eqb_spec. intros Hx.
  rewrite <- (SF2Prim_Prim2SF x).
  destruct (Prim2SF x) as [[] | [] | | [] m e];
    try (vm_compute in Hx; discriminate Hx); auto.
Qed.

Lemma max_of_zeros (l : list float) (highest : float) :
  highest = neg_infinity \/ highest = 0 ->
  Forall (fun x => x = 0) l ->
  Math_max_from highest l = match l with [] => highest | _ => 0 end.
Proof.
  intros Hh Hl. revert highest Hh.
  induction Hl as [| x l -> _ IH]; intros highest Hh; [done |].
  destruct Hh as [-> | ->]; simpl; rewrite IH by auto; by destruct l.
Qed.

Lemma abs_of_zeros (l : list float) :
  Forall (fun x => PrimFloat.is_zero x = true) l ->
  Forall (fun x => x = 0) (map Math_abs l).
Proof.
  intros Hl. apply Forall_fmap. eapply Forall_impl; [exact Hl |].
  intros x Hx. simpl. by destruct (is_zero_inv x Hx) as [-> | ->].
Qed.

Lemma maxAmplitude_of_zeros (samples : list float) :
  Forall (fun x => PrimFloat.is_zero x = true) samples ->
  maxAmplitude samples = match samples with [] => neg_infinity | _ => 0 end.
Proof.
  intros Hz. unfold maxAmplitude, Math_max.
  rewrite waveformData_take, max_of_zeros.
  - by destruct samples.
  - by left.
  - apply abs_of_zeros. by apply Forall_take.
Qed.

Lemma flat_points (st sc : float) (index : nat) (l : list float) :
  sc = 120 \/ sc = -0 ->
  Forall (fun x => PrimFloat.is_zero x = true) l ->
  Forall (fun c => exists x, point_of c = Some (x, 150))
         (forEach_point st sc index l).
Proof.
  intros Hsc Hl. revert index.
  induction Hl as [| v l Hv _ IH]; intros index; [constructor |].
  simpl. constructor; [| apply IH].
  assert (Hy : 150 - v * sc = 150).
  { destruct (is_zero_inv v Hv) as [-> | ->], Hsc as [-> | ->]; reflexivity. }
  change (num_sub (num_div height (num_of_Z 2)) (num_mul v sc))
    with (300 / 2 - v * sc).
  change (300 / 2) with 150. rewrite Hy.
  destruct (Nat.eqb index 0); simpl; eauto.
Qed.

(** C4, as amended.  The divisor of the render scale is [maxAmplitude]
    whenever that is truthy (neither zero nor [NaN]) and [1] otherwise, so
    it is never zero.  For an empty sample set [Math.max()] is
    [-Infinity], which is truthy: the divisor is then [-Infinity] (and the
    scale [-0]), with no point to draw.  For an all-zero input every point
    of the path lies at [y = H/2 = 150]. *)
Theorem divisor_is_max_or_one (samples : list float) :
  (truthy (maxAmplitude samples) = true ->
   divisor samples = maxAmplitude samples)
  /\ (truthy (maxAmplitude samples) = false -> divisor samples = 1)
  /\ (PrimFloat.is_zero (maxAmplitude samples) = true -> divisor samples = 1)
  /\ truthy (divisor samples) = true
  /\ (samples = [] ->
      maxAmplitude samples = neg_infinity
      /\ divisor samples = neg_infinity
      /\ scale samples = -0
      /\ path samples = [])
  /\ (Forall (fun x => PrimFloat.is_zero x = true) samples ->
      Forall (fun c => exists x, point_of c = Some (x, 150)) (path samples)
      /\ length (path samples) = length (take 500 samples)
      /\ (samples <> [] -> divisor samples = 1 /\ scale samples = 120)).
Proof.
  assert (Hzero : PrimFloat.is_zero (maxAmplitude samples) = true ->
                  truthy (maxAmplitude samples) = false).
  { intros Hz. unfold truthy. simpl.
    destruct (PrimFloat.is_nan _); [done |]. rewrite Hz.
    by destruct (PrimFloat.get_sign _). }
  unfold divisor, or_else.
  split; [by intros -> |]. split; [by intros -> |].
  split; [by intros ->%Hzero |].
  split; [by destruct (truthy (maxAmplitude samples)) eqn:Ht |].
  split; [by intros -> |].
  intros Hz.
  assert (Hlen : forall st sc k (l : list float),
            length (forEach_point st sc k l) = length l).
  { intros st sc k l. revert k. induction l; intros k; simpl; auto. }
  pose proof (maxAmplitude_of_zeros samples Hz) as Hmax.
  split; [| split].
  - unfold path. apply flat_points.
    + unfold scale, divisor, or_else. rewrite Hmax.
      destruct samples; [by right | by left].
    + rewrite waveformData_take. by apply Forall_take.
  - unfold path. by rewrite Hlen, waveformData_take.
  - intros Hne. unfold scale, divisor, or_else. rewrite Hmax.
    by destruct samples.
Qed.

(** C4, as stated, fails on the empty sample set: the divisor is
    [-Infinity], not [1]. *)
Lemma empty_sample_set_divisor :
  divisor (@nil float) = neg_infinity /\ divisor (@nil float) <> 1.
Proof.
  split; [reflexivity |].
  intros Hone. apply (f_equal Prim2SF) in Hone.
  vm_compute in Hone. discriminate Hone.
Qed.

Lemma divisor_witness :
  divisor [0; -0; 0] = 1 /\ scale [0; -0; 0] = 120.
Proof.
  destruct (divisor_is_max_or_one [0; -0; 0]) as (_ & _ & _ & _ & _ & Hzeros).
  apply Hzeros.
  - repeat constructor.
  - discriminate.
Defined.

Lemma draw_witness :
  draw (Some (sample_of [0; 1; -1; 0])) =
  [fillStyle "#1a1a1a"; fillRect 0 0 800 300;
   strokeStyle "#00ff88"; lineWidth 1.5; beginPath;
   moveTo 0 150; lineTo 200 30; lineTo 400 270; lineTo 600 150; stroke;
   strokeStyle "#444"; lineWidth 1; beginPath;
   moveTo 0 150; lineTo 800 150; stroke].
Proof.
  refine (eq_trans
            (proj1 (draw_polyline_of_first_500
                      (sample_of [0; 1; -1; 0]) [0; 1; -1; 0] eq_refl)) _).
  vm_compute. reflexivity.
Defined.

(** C6, as stated, fails in doubles: scaling the samples [3, 4] by the
    positive factor [0.1] moves the first point of the path from
    [y = 60] to [y = 59.999999999999986]. *)
Lemma scaling_moves_pixels_in_doubles :
  PrimFloat.ltb 0 0.1 = true
  /\ path (map (PrimFloat.mul 0.1) [3; 4]) <> path [3; 4].
Proof.
  split; [reflexivity |].
  intros Hsame.
  apply (f_equal (fun calls => match calls with
                               | moveTo _ y :: _ => Prim2SF y
                               | _ => S754_nan
                               end)) in Hsame.
  vm_compute in Hsame. discriminate Hsame.
Qed.

Local Close Scope float_scope.

(** ** In exact arithmetic *)

Local Open Scope Qc_scope.

Lemma Qc_ltb_true (a b : Qc) : Qc_ltb a b = true <-> a < b.
Proof. unfold Qc_ltb. apply bool_decide_eq_true. Qed.

Lemma Qc_ltb_false (a b : Qc) : Qc_ltb a b = false <-> b <= a.
Proof.
  unfold Qc_ltb. rewrite bool_decide_eq_false. symmetry. apply Qcle_ngt.
Qed.

Lemma Qc_is_zero_false (q : Qc) : Qc_is_zero q = false <-> q <> 0.
Proof. unfold Qc_is_zero. apply bool_decide_eq_false. Qed.

Lemma Qc_ltb_scale (c a b : Qc) :
  0 < c -> Qc_ltb (c * a) (c * b) = Qc_ltb a b.
Proof.
  intros Hc. destruct (Qc_ltb a b) eqn:Hab.
  - apply Qc_ltb_true. apply Qc_ltb_true in Hab.
    by apply Qcmult_lt_mono_pos_l.
  - apply Qc_ltb_false. apply Qc_ltb_false in Hab.
    by apply Qcmult_le_mono_pos_l.
Qed.

Lemma Qc_abs_scale (c q : Qc) : 0 < c -> Qc_abs (c * q) = c * Qc_abs q.
Proof.
  intros Hc. unfold Qc_abs.
  replace (Qc_ltb (c * q) 0) with (Qc_ltb (c * q) (c * 0))
    by (f_equal; ring).
  rewrite Qc_ltb_scale by done.
  destruct (Qc_ltb q 0); ring.
Qed.

Lemma Qc_abs_nonneg (q : Qc) : 0 <= Qc_abs q.
Proof.
  unfold Qc_abs. destruct (Qc_ltb q 0) eqn:Hq.
  - apply Qc_ltb_true in Hq. apply (Qcplus_le_mono_r _ _ q).
    replace (- q + q) with 0 by ring. rewrite Qcplus_0_l.
    by apply Qclt_le_weak.
  - by apply Qc_ltb_false in Hq.
Qed.

Lemma Qc_abs_zero (q : Qc) : Qc_abs q = 0 -> q = 0.
Proof.
  unfold Qc_abs. destruct (Qc_ltb q 0); intros Hq; [| done].
  replace q with (- - q) by ring. rewrite Hq. ring.
Qed.

Lemma Qc_max_scale (c a b : Qc) :
  0 < c -> Qc_max (c * a) (c * b) = c * Qc_max a b.
Proof.
  intros Hc. unfold Qc_max. rewrite Qc_ltb_scale by done.
  by destruct (Qc_ltb a b).
Qed.

Lemma foldl_max_scale (c h : Qc) (l : list Qc) :
  0 < c ->
  foldl Qc_max (c * h) (Qcmult c <$> l) = c * foldl Qc_max h l.
Proof.
  intros Hc. revert h. induction l as [| x l IH]; intros h; [done |].
  simpl. by rewrite Qc_max_scale, IH.
Qed.

Lemma foldl_max_ge (h : Qc) (l : list Qc) :
  h <= foldl Qc_max h l /\ Forall (fun x => x <= foldl Qc_max h l) l.
Proof.
  revert h. induction l as [| x l IH]; intros h.
  { split; [apply Qcle_refl | constructor]. }
  simpl. destruct (IH (Qc_max h x)) as [Hh Hl].
  assert (Hmax : h <= Qc_max h x /\ x <= Qc_max h x).
  { unfold Qc_max. destruct (Qc_ltb h x) eqn:Hhx.
    - apply Qc_ltb_true in Hhx. split; [by apply Qclt_le_weak | apply Qcle_refl].
    - apply Qc_ltb_false in Hhx. split; [apply Qcle_refl | done]. }
  destruct Hmax as [H1 H2].
  split; [by eapply Qcle_trans | constructor; [by eapply Qcle_trans | done]].
Qed.

(** [Math.max] over finite values is their largest. *)
Lemma max_from_finite (h : Qc) (l : list Qc) :
  Math_max_from (XFin h) (XFin <$> l) = XFin (foldl Qc_max h l).
Proof.
  revert h. induction l as [| x l IH]; intros h; [done |].
  simpl. unfold Qc_max at 2.
  rewrite andb_false_r, orb_false_l.
  destruct (Qc_ltb h x); apply IH.
Qed.

(** The largest magnitude among the samples kept, when there is one. *)
Lemma maxAmplitude_finite (q : Qc) (v : list Qc) :
  Math_max (map Math_abs (XFin <$> q :: v)) =
  XFin (foldl Qc_max (Qc_abs q) (Qc_abs <$> v)).
Proof.
  rewrite <- max_from_finite. unfold Math_max. simpl.
  rewrite andb_false_r, orb_true_r. f_equal.
  change (map xabs (list_fmap Qc xnum XFin v)) with (xabs <$> (XFin <$> v)).
  by rewrite <- !list_fmap_compose.
Qed.

Lemma Qc_of_decimal_nonzero (m : Z) :
  m <> 0%Z -> Qc_of_decimal m 0 <> 0.
Proof.
  intros Hm Hq. apply (f_equal this) in Hq.
  unfold Qc_of_decimal in Hq. simpl in Hq.
  apply Qred_eq_iff in Hq. rename Hq into Heq.
  rewrite Qmult_1_r in Heq. unfold Qeq, inject_Z in Heq. simpl in Heq. lia.
Qed.

(** The scale of a non-empty finite sample set: a constant over the
    largest magnitude, or over 1 when that is zero. *)
Lemma scale_finite :
  exists K one : Qc,
    K = Qc_of_decimal 120 0 /\
    one <> 0 /\
    forall (v : list Qc) (q : Qc) (r : list Qc),
      take 500 v = q :: r ->
      let M := foldl Qc_max (Qc_abs q) (Qc_abs <$> r) in
      scale (XFin <$> v) = XFin (K / (if Qc_is_zero M then one else M)).
Proof.
  exists (Qc_of_decimal 300 0 / Qc_of_decimal 2 0 * Qc_of_decimal 8 (-1)),
         (Qc_of_decimal 1 0).
  split; [apply Qc_is_canon; reflexivity |].
  split; [by apply Qc_of_decimal_nonzero |].
  intros v q r Hkept M.
  unfold scale, divisor, maxAmplitude.
  rewrite waveformData_take, <- fmap_take, Hkept, maxAmplitude_finite.
  fold M. unfold or_else, truthy. simpl.
  rewrite orb_false_r.
  destruct (Qc_is_zero M) eqn:HM; simpl; [done | by rewrite HM].
Qed.

Lemma forEach_scaled (st : xnum) (sc sc' c : Qc) (index : nat) (l : list Qc) :
  Forall (fun x => c * x * sc' = x * sc) l ->
  forEach_point st (XFin sc') index (XFin <$> (Qcmult c <$> l)) =
  forEach_point st (XFin sc) index (XFin <$> l).
Proof.
  intros Hl. revert index.
  induction Hl as [| x l Hx _ IH]; intros index; [done |].
  simpl. rewrite Hx. f_equal. apply IH.
Qed.

Lemma draw_scaled_exact (v : list Qc) (c : Qc) :
  0 < c ->
  draw (Some (sample_of (XFin <$> (Qcmult c <$> v)))) =
  draw (Some (sample_of (XFin <$> v))).
Proof.
  intros Hc. unfold draw, sample_of. cbn [data]. do 3 f_equal.
  assert (Hstep : step (XFin <$> (Qcmult c <$> v)) = step (XFin <$> v)).
  { unfold step. by rewrite !waveformData_take, !length_take, !length_fmap. }
  rewrite Hstep, !waveformData_take, <- !fmap_take.
  destruct (take 500 v) as [| q r] eqn:Hkept; [done |].
  destruct scale_finite as (K & one & _ & Hone & Hscale).
  rewrite (Hscale v q r Hkept).
  rewrite (Hscale (Qcmult c <$> v) (c * q) (Qcmult c <$> r))
    by (by rewrite <- fmap_take, Hkept).
  rewrite Qc_abs_scale by done.
  rewrite <- list_fmap_compose.
  rewrite (list_fmap_ext (Qc_abs ∘ Qcmult c) (Qcmult c ∘ Qc_abs) r)
    by (intros; simpl; by apply Qc_abs_scale).
  rewrite list_fmap_compose, foldl_max_scale by done.
  set (M := foldl Qc_max (Qc_abs q) (Qc_abs <$> r)).
  assert (Hcne : c <> 0).
  { intros ->. by apply Qclt_not_eq in Hc. }
  change (XFin (c * q) :: (XFin <$> (Qcmult c <$> r)))
    with (XFin <$> (Qcmult c <$> q :: r)).
  change (XFin q :: (XFin <$> r)) with (XFin <$> q :: r).
  apply forEach_scaled.
  destruct (Qc_is_zero M) eqn:HM.
  - assert (HM0 : M = 0) by (by apply bool_decide_eq_true in HM).
    replace (Qc_is_zero (c * M)) with true
      by (symmetry; apply bool_decide_eq_true; rewrite HM0; ring).
    assert (Hle : Forall (fun x => Qc_abs x <= M) (q :: r)).
    { destruct (foldl_max_ge (Qc_abs q) (Qc_abs <$> r)) as [Hq Hr].
      constructor; [exact Hq |]. rewrite Forall_fmap in Hr. exact Hr. }
    eapply Forall_impl; [exact Hle |].
    intros x Hx. simpl in Hx. rewrite HM0 in Hx.
    assert (Hx0 : x = 0).
    { apply Qc_abs_zero. apply Qcle_antisym; [done | apply Qc_abs_nonneg]. }
    rewrite Hx0. ring.
  - assert (HMne : M <> 0) by (by apply Qc_is_zero_false).
    replace (Qc_is_zero (c * M)) with false.
    + apply Forall_forall. intros x _. field. by split.
    + symmetry. apply Qc_is_zero_false. intros Hprod.
      apply Qcmult_integral in Hprod. by destruct Hprod.
Qed.

Lemma foldl_max_attained (h : Qc) (l : list Qc) :
  foldl Qc_max h l = h \/ foldl Qc_max h l ∈ l.
Proof.
  revert h. induction l as [| x l IH]; intros h; [by left |].
  simpl. destruct (IH (Qc_max h x)) as [Hm | Hm].
  - rewrite Hm. unfold Qc_max. destruct (Qc_ltb h x); [right | by left].
    apply list_elem_of_here.
  - right. by apply list_elem_of_further.
Qed.

(** Some sample kept has the largest magnitude. *)
Lemma peak_sample (q : Qc) (r : list Qc) :
  exists x, x ∈ q :: r /\ Qc_abs x = foldl Qc_max (Qc_abs q) (Qc_abs <$> r).
Proof.
  destruct (foldl_max_attained (Qc_abs q) (Qc_abs <$> r)) as [Hm | Hm].
  - exists q. split; [apply list_elem_of_here | done].
  - apply list_elem_of_fmap in Hm as (x & Hx & Hin).
    exists x. split; [by apply list_elem_of_further | done].
Qed.

Lemma forEach_point_of (st : xnum) (sc : Qc) (index : nat) (l : list Qc) (x : Qc) :
  x ∈ l ->
  exists call px,
    call ∈ forEach_point st (XFin sc) index (XFin <$> l)
    /\ point_of call =
       Some (px, num_sub (num_div height (num_of_Z 2)) (XFin (x * sc))).
Proof.
  intros Hx. revert index.
  induction Hx as [x l | x y l _ IH]; intros index.
  - simpl. destruct (Nat.eqb index 0); eexists _, _;
      (split; [apply list_elem_of_here | done]).
  - destruct (IH (S index)) as (call & px & Hin & Hp).
    exists call, px. split; [| done]. simpl. by apply list_elem_of_further.
Qed.

Lemma forEach_abscissas {num : Type} `{JSNumber num}
    (st sc sc' : num) (index : nat) (l l' : list num) :
  length l = length l' ->
  abscissas (forEach_point st sc index l) =
  abscissas (forEach_point st sc' index l').
Proof.
  revert index l'. induction l as [| x l IH]; intros index [| x' l'] Hlen;
    try done.
  injection Hlen as Hlen. simpl.
  unfold abscissas in *. simpl.
  destruct (Nat.eqb index 0); simpl; f_equal; by apply IH.
Qed.

(** C6, as amended.  In exact arithmetic, for every array [v] of finite
    samples and every positive factor [c], the effect drawn for [c·v] is
    call for call the effect drawn for [v], the same pixels in the same
    order, and when some sample kept is not zero a point of the path lies
    at 80% of the half-height from the midline ([y = 30] or [y = 270]).
    In doubles the scaled array still gives the same number of points at
    the same x coordinates; their y coordinates are subject to rounding. *)
Theorem exact_scale_invariance (v : list Qc) (c : Qc) :
  0 < c ->
  draw (Some (sample_of (XFin <$> (Qcmult c <$> v)))) =
  draw (Some (sample_of (XFin <$> v)))
  /\ (Exists (fun x => x <> 0) (take 500 v) ->
      exists call px,
        call ∈ path (XFin <$> v)
        /\ (point_of call = Some (px, XFin (Qc_of_decimal 30 0))
            \/ point_of call = Some (px, XFin (Qc_of_decimal 270 0))))
  /\ (forall (w : list float) (k : float),
        abscissas (path (map (PrimFloat.mul k) w)) = abscissas (path w)
        /\ length (path (map (PrimFloat.mul k) w)) = length (path w)).
Proof.
  intros Hc. split; [by apply draw_scaled_exact |]. split.
  - intros Hnz. unfold path.
    rewrite waveformData_take, <- fmap_take.
    destruct (take 500 v) as [| q r] eqn:Hkept; [by apply Exists_nil in Hnz |].
    destruct scale_finite as (K & one & HK & Hone & Hscale).
    pose proof (Hscale v q r Hkept) as Hsc. cbv zeta in Hsc.
    set (M := foldl Qc_max (Qc_abs q) (Qc_abs <$> r)) in *.
    assert (HM : M <> 0).
    { intros HM0. apply Exists_exists in Hnz as (x & Hx & Hx0). apply Hx0.
      destruct (foldl_max_ge (Qc_abs q) (Qc_abs <$> r)) as [Hq Hr].
      fold M in Hq, Hr. rewrite HM0 in Hq, Hr.
      rewrite Forall_fmap in Hr.
      assert (Hall : Forall (fun x => Qc_abs x <= 0) (q :: r))
        by (constructor; [exact Hq | exact Hr]).
      rewrite Forall_forall in Hall.
      apply Qc_abs_zero, Qcle_antisym; [by apply Hall | apply Qc_abs_nonneg]. }
    replace (Qc_is_zero M) with false in Hsc
      by (symmetry; by apply Qc_is_zero_false).
    destruct (peak_sample q r) as (x & Hx & Habs). fold M in Habs.
    destruct (forEach_point_of (step (XFin <$> v)) (K / M) 0 (q :: r) x Hx)
      as (call & px & Hin & Hp).
    exists call, px. rewrite Hsc. split; [exact Hin |].
    rewrite Hp. clear Hin Hp.
    unfold Qc_abs in Habs.
    destruct (Qc_ltb x 0); [right | left]; do 2 f_equal.
    + replace (x * (K / M)) with (- K) by (rewrite <- Habs; field; intros Hx0;
        apply HM; rewrite <- Habs, Hx0; ring).
      rewrite HK. simpl. f_equal.
    + replace (x * (K / M)) with K by (rewrite <- Habs; field; by rewrite Habs).
      rewrite HK. simpl. f_equal.
  - intros w k. unfold path.
    assert (Hstep : step (map (PrimFloat.mul k) w) = step w).
    { unfold step. by rewrite !waveformData_take, !length_take, !length_map. }
    assert (Hlen : length (waveformData (map (PrimFloat.mul k) w))
                   = length (waveformData w)).
    { by rewrite !waveformData_take, !length_take, !length_map. }
    rewrite Hstep. split; [by apply forEach_abscissas |].
    assert (Hcount : forall st sc i (l : list float),
              length (forEach_point st sc i l) = length l).
    { intros st sc i l. revert i. induction l; intros i; simpl; auto. }
    by rewrite !Hcount.
Qed.

Lemma exact_scale_invariance_witness :
  draw (Some (sample_of (XFin <$> (Qcmult (Q2Qc (1 # 10))
                                     <$> [Q2Qc 3; Q2Qc 4])))) =
  draw (Some (sample_of (XFin <$> [Q2Qc 3; Q2Qc 4]))).
Proof.
  refine (proj1 (exact_scale_invariance [Q2Qc 3; Q2Qc 4] (Q2Qc (1 # 10)) _)).
  reflexivity.
Defined.

End ChartFacts.

(* ================================================================== *)
(** * Properties of the detection card                                  *)
(* ================================================================== *)

Module CardFacts.
Import JS DetectionCard.
Local Open Scope string_scope.

Section Card.
Variable toLocaleTimeString : Timestamp -> string.
Variable Number_toString : float -> string.

Local Abbreviation card_of := (DetectionCard toLocaleTimeString Number_toString).

Lemma if_agreement_flag {A} (detection : DetectionEvent) (a b : A) :
  if_agreement (comparison_or_empty detection) a b =
  if agreement_flag detection then a else b.
Proof.
  unfold if_agreement, comparison_or_empty, agreement_flag.
  destruct (comparison detection) as [[[[] |] diff] |]; done.
Qed.

(** The classification shown by a card. *)
Lemma card_classification (detection : DetectionEvent) :
  className (card_of detection) =
    "detection-card "
    ++ (if agreement_flag detection then "agreement" else "disagreement")
  /\ badge_class (card_of detection) =
    "agreement-badge "
    ++ (if agreement_flag detection then "agree" else "disagree")
  /\ badge_text (card_of detection) =
    (if agreement_flag detection then "✓ Agreement" else "✗ Disagreement").
Proof.
  unfold DetectionCard. cbn [className badge_class badge_text].
  by rewrite !if_agreement_flag.
Qed.

(** C7.  The card is classified by [comparison.agreement] as the message
    gives it, whatever the per-model results are: replacing [models] by
    anything else leaves the classification unchanged.  The
    confidence-delta line is shown exactly when the message has a
    [comparison.confidence_diff].  The event of concrete scenario 2 gives
    a card classified as disagreement, with the confidences [92.0%] and
    [30.0%] and the single pick badge [P: 80%]. *)
Theorem classification_read_verbatim (detection : DetectionEvent) :
  (className (card_of detection) =
     "detection-card "
     ++ (if agreement_flag detection then "agreement" else "disagreement")
   /\ badge_class (card_of detection) =
     "agreement-badge "
     ++ (if agreement_flag detection then "agree" else "disagree")
   /\ badge_text (card_of detection) =
     (if agreement_flag detection then "✓ Agreement" else "✗ Disagreement"))
  /\ (forall m,
        className (card_of (with_models detection m))
        = className (card_of detection)
        /\ badge_class (card_of (with_models detection m))
           = badge_class (card_of detection)
        /\ badge_text (card_of (with_models detection m))
           = badge_text (card_of detection))
  /\ (is_Some (comparison_stats (card_of detection))
      <-> has_confidence_diff detection = true)
  /\ (className (card_of scenario_2) = "detection-card disagreement"
      /\ badge_text (card_of scenario_2) = "✗ Disagreement"
      /\ map confidence_text (models_comparison (card_of scenario_2))
         = ["Confidence: 92.0%"; "Confidence: 30.0%"]
      /\ map pick_badges (models_comparison (card_of scenario_2))
         = [Some ["P: 80%"]; None]).
Proof.
  split; [apply card_classification |]. split; [| split].
  - intros m.
    destruct (card_classification (with_models detection m)) as (-> & -> & ->).
    destruct (card_classification detection) as (-> & -> & ->).
    done.
  - unfold DetectionCard, has_confidence_diff, comparison_or_empty.
    cbn [comparison_stats].
    destruct (comparison detection) as [[flag []] |]; simpl;
      split; (done || by intros []).
  - vm_compute. done.
Qed.

(** C9.  When the message has no [comparison] at all, the card is still
    produced; it is classified as disagreement, its badge shows
    disagreement and there is no confidence-delta line, while the header
    and the per-model blocks are those of the same event with any
    comparison. *)
Theorem missing_comparison_is_disagreement (detection : DetectionEvent) :
  comparison detection = None ->
  className (card_of detection) = "detection-card disagreement"
  /\ badge_class (card_of detection) = "agreement-badge disagree"
  /\ badge_text (card_of detection) = "✗ Disagreement"
  /\ comparison_stats (card_of detection) = None
  /\ (forall c,
        models_comparison (card_of (with_comparison detection c))
        = models_comparison (card_of detection)
        /\ event_text (card_of (with_comparison detection c))
           = event_text (card_of detection)
        /\ time_text (card_of (with_comparison detection c))
           = time_text (card_of detection)).
Proof.
  intros Hnone.
  destruct (card_classification detection) as (-> & -> & ->).
  unfold agreement_flag. rewrite Hnone.
  do 3 (split; [done |]). split; [| done].
  unfold DetectionCard, comparison_or_empty.
  cbn [comparison_stats]. by rewrite Hnone.
Qed.

End Card.

Lemma missing_comparison_witness :
  className (DetectionCard (fun _ => EmptyString) (fun _ => EmptyString)
                           scenario_2_without_comparison)
  = "detection-card disagreement".
Proof.
  refine (proj1 (missing_comparison_is_disagreement
                   (fun _ => EmptyString) (fun _ => EmptyString)
                   scenario_2_without_comparison _)).
  reflexivity.
Defined.

End CardFacts.

(* ================================================================== *)
(** * Properties of the hourly aggregate                                *)
(* ================================================================== *)

Module SqlFacts.
Import Sql.

(** A bucket is one hour wide, starts on the hour grid and holds the
    timestamp it was computed from. *)
Lemma time_bucket_hour (ts : Z) :
  time_bucket hour ts <= ts < time_bucket hour ts + hour
  /\ (time_bucket hour ts - bucket_origin) mod hour = 0.
Proof.
  unfold time_bucket.
  assert (Hh : 0 < hour) by (unfold hour; lia).
  pose proof (Z.mod_pos_bound (ts - bucket_origin) hour Hh) as Hm.
  split; [lia |].
  replace (ts - (ts - bucket_origin) mod hour - bucket_origin)
    with (ts - bucket_origin - (ts - bucket_origin) mod hour) by lia.
  rewrite Zminus_mod_idemp_r, Z.sub_diag. by apply Z.mod_0_l, Z.neq_sym, Z.lt_neq.
Qed.

Lemma group_rows_snoc (rows : list detection) (r : detection) :
  group_rows (rows ++ [r]) =
  <[group_key r :=
      accum_step (default accum_init (group_rows rows !! group_key r)) r]>
    (group_rows rows).
Proof. unfold group_rows. by rewrite foldl_app. Qed.

Lemma group_snoc (k : Z * string) (rows : list detection) (r : detection) :
  group k (rows ++ [r]) =
  group k rows ++ (if decide (group_key r = k) then [r] else []).
Proof.
  unfold group. by rewrite filter_app.
Qed.

(** The transition state of a group is the fold of [accum_step] over its
    rows; a key without rows has no state. *)
Lemma group_rows_lookup (rows : list detection) (k : Z * string) :
  group_rows rows !! k =
  match group k rows with
  | [] => None
  | g => Some (foldl accum_step accum_init g)
  end.
Proof.
  induction rows as [| r rows IH] using rev_ind; [done |].
  rewrite group_rows_snoc, group_snoc.
  destruct (decide (group_key r = k)) as [Hk | Hk].
  - rewrite Hk, lookup_insert_eq, IH.
    destruct (group k rows) as [| r0 g] eqn:Hg; [done |].
    simpl. by rewrite foldl_app.
  - rewrite lookup_insert_ne by done. by rewrite IH, app_nil_r.
Qed.

Lemma foldl_accum_step (a : accum) (g : list detection) :
  foldl accum_step a g =
  {| n_rows := n_rows a + Z.of_nat (length g);
     n_positive :=
       n_positive a + Z.of_nat (length (filter (fun r => detected r = true) g));
     sum_confidence :=
       foldl (fun acc r => (acc + confidence r)%float) (sum_confidence a) g;
     sum_processing_time :=
       foldl (fun acc r => (acc + processing_time_ms r)%float)
             (sum_processing_time a) g |}.
Proof.
  revert a. induction g as [| r g IH]; intros a.
  { simpl. destruct a. f_equal; simpl; lia. }
  simpl. rewrite IH. unfold accum_step at 1 2 3 4. simpl.
  rewrite filter_cons.
  destruct (detected r); simpl; f_equal; lia.
Qed.

Lemma finalize_group (g : list detection) :
  finalize (foldl accum_step accum_init g) = group_stats g.
Proof.
  rewrite foldl_accum_step. unfold finalize, group_stats, average, column_sum.
  simpl. done.
Qed.

(** A refresh recomputes the buckets that lie inside its window. *)
Lemma refresh_inside (lo hi : Z) (rows : list detection)
    (materialized : gmap (Z * string) stats) (bucket : Z) (model : string) :
  inside lo hi bucket = true ->
  refresh lo hi rows materialized !! (bucket, model) =
  detection_stats_hourly rows !! (bucket, model).
Proof.
  intros Hin. unfold refresh.
  rewrite lookup_union.
  rewrite (map_lookup_filter_None_2 _ materialized)
    by (right; intros x _; simpl; by rewrite Hin).
  rewrite (right_id None _).
  destruct (detection_stats_hourly rows !! (bucket, model)) as [x |] eqn:Hx.
  - by apply map_lookup_filter_Some_2.
  - apply map_lookup_filter_None_2. by left.
Qed.

(** C8.  The view has one row for each pair of an hour bucket and a model
    name that has records, and none for the others.  The row counts the
    records of the group, counts those with [detected = true], and
    averages their confidence and processing time.  Three records of one
    bucket and model with [detected] true, true, false give
    [total_detections = 3] and [positive_detections = 2] once a refresh has
    covered the bucket. *)
Theorem hourly_stats_per_bucket_and_model
    (rows : list detection) (bucket : Z) (model : string) :
  detection_stats_hourly rows !! (bucket, model) =
    match group (bucket, model) rows with
    | [] => None
    | g => Some (group_stats g)
    end
  /\ (forall r,
        r ∈ group (bucket, model) rows <->
        r ∈ rows /\ model_name r = model
        /\ bucket <= created_at r < bucket + hour
        /\ (bucket - bucket_origin) mod hour = 0)
  /\ (let seven := 7 * hour in
      let after := refresh (6 * hour) (8 * hour) scenario_3 materialized_init in
      total_detections <$> after !! (seven, "modelA"%string) = Some 3
      /\ positive_detections <$> after !! (seven, "modelA"%string) = Some 2).
Proof.
  split; [| split].
  - unfold detection_stats_hourly. rewrite lookup_fmap, group_rows_lookup.
    destruct (group (bucket, model) rows) as [| r g]; [done |].
    simpl. f_equal. apply (finalize_group (r :: g)).
  - intros r. unfold group. rewrite list_elem_of_filter.
    unfold group_key.
    pose proof (time_bucket_hour (created_at r)) as [Hin Hgrid].
    split.
    + intros [[= <- <-] Hr]. done.
    + intros (Hr & <- & Hin' & Hgrid'). split; [| done]. f_equal.
      assert (Hh : 0 < hour) by (unfold hour; lia).
      apply Z.mod_divide in Hgrid as [a Ha]; [| lia].
      apply Z.mod_divide in Hgrid' as [b Hb]; [| lia].
      assert (a = b) by nia. nia.
  - intros seven after. subst after.
    rewrite refresh_inside by reflexivity.
    unfold detection_stats_hourly. rewrite lookup_fmap, group_rows_lookup.
    split; reflexivity.
Qed.

End SqlFacts.

(* ================================================================== *)
(** * Further properties of the stream handlers                         *)
(* ================================================================== *)

Module AppMore.
Import JS App JSFacts AppFacts.

Section Handlers.
Context {value : Type}.
Variable JSON_parse : string -> option value.

Local Abbreviation handler := (App.handler JSON_parse).
Local Abbreviation dispatch := (App.dispatch JSON_parse).
Local Abbreviation run := (App.run JSON_parse).
Local Abbreviation pushed := (App.pushed JSON_parse).
Local Abbreviation malformed := (App.malformed JSON_parse).

Lemma dispatch_now (r : running value) (ev : event) :
  now (dispatch r ev) = (handler ev (now r)).2.
Proof.
  unfold App.dispatch. by destruct (handler ev (now r)) as [[]].
Qed.

Lemma dispatch_uncaught (r : running value) (ev : event) :
  uncaught (dispatch r ev) =
  uncaught r ++ (if malformed ev then [SyntaxError] else []).
Proof.
  unfold App.dispatch.
  destruct ev as [s | s raw | s].
  - destruct (lifecycle_handler JSON_parse s true (now r)) as [log Hlog].
    change (lifecycle_event s true) with (Open s) in Hlog. rewrite Hlog.
    simpl. by rewrite app_nil_r.
  - unfold App.malformed. destruct (JSON_parse raw) as [v |] eqn:Hraw.
    + destruct s.
      * rewrite (onmessage_waveform JSON_parse raw v) by done.
        simpl. by rewrite app_nil_r.
      * rewrite (onmessage_detection JSON_parse raw v) by done.
        simpl. by rewrite app_nil_r.
    + by rewrite (onmessage_throws JSON_parse s raw) by done.
  - destruct (lifecycle_handler JSON_parse s false (now r)) as [log Hlog].
    change (lifecycle_event s false) with (Close s) in Hlog. rewrite Hlog.
    simpl. by rewrite app_nil_r.
Qed.

Lemma onmessage_effects (s : stream) (raw : string) (w : world value) :
  effects (handler (Message s raw) w).2 = effects w.
Proof.
  destruct (JSON_parse raw) as [v |] eqn:Hraw.
  - destruct s.
    + by rewrite (onmessage_waveform JSON_parse raw v).
    + by rewrite (onmessage_detection JSON_parse raw v).
  - by rewrite (onmessage_throws JSON_parse s raw).
Qed.

(** A message, whether its payload parses or not, touches nothing but the
    buffer of its own stream: the other buffer, the connection status and
    the effect trace are as before. *)
Theorem message_touches_only_its_buffer
    (s : stream) (raw : string) (w : world value) :
  let w' := (handler (Message s raw) w).2 in
  effects w' = effects w
  /\ connectionStatus (component w') = connectionStatus (component w)
  /\ match s with
     | Waveforms => detections (component w') = detections (component w)
     | Detections => waveformData (component w') = waveformData (component w)
     end.
Proof.
  destruct (JSON_parse raw) as [v |] eqn:Hraw.
  - destruct s.
    + by rewrite (onmessage_waveform JSON_parse raw v).
    + by rewrite (onmessage_detection JSON_parse raw v).
  - rewrite (onmessage_throws JSON_parse s raw) by done. by destruct s.
Qed.

Lemma pushed_messages_only (s : stream) (evs : list event) :
  pushed s (filter (fun ev => is_message ev = true) evs) = pushed s evs.
Proof.
  induction evs as [| ev evs IH]; [done |].
  rewrite filter_cons. destruct ev as [s' | s' raw | s']; simpl.
  - exact IH.
  - unfold App.pushed in *. simpl.
    destruct (if bool_decide (s' = s) then JSON_parse raw else None);
      by rewrite IH.
  - exact IH.
Qed.

(** Opening and closing the sockets never clears or alters the buffers:
    after any sequence of events both buffers are what the messages
    alone would have produced. *)
Theorem buffers_survive_reconnects (evs : list event) :
  let messages := filter (fun ev => is_message ev = true) evs in
  waveformData (component (now (run evs)))
  = waveformData (component (now (run messages)))
  /\ detections (component (now (run evs)))
     = detections (component (now (run messages))).
Proof.
  intros messages. subst messages.
  rewrite !(waveform_buffer JSON_parse), !(detection_buffer JSON_parse).
  by rewrite !pushed_messages_only.
Qed.

(** Malformed payloads are dropped without trace in the state: the world
    after any sequence of events is the world after the same sequence with
    the malformed messages removed, and the event loop has recorded exactly
    one uncaught [SyntaxError] per malformed message. *)
Theorem malformed_messages_are_skipped (evs : list event) :
  now (run evs) = now (run (filter (fun ev => malformed ev = false) evs))
  /\ uncaught (run evs) =
     replicate (length (filter (fun ev => malformed ev = true) evs)) SyntaxError
  /\ uncaught (run (filter (fun ev => malformed ev = false) evs)) = [].
Proof.
  induction evs as [| ev evs (IHnow & IHerr & IHok)] using rev_ind; [done |].
  rewrite !filter_app, !filter_cons, !filter_nil.
  rewrite (run_snoc JSON_parse), dispatch_now, dispatch_uncaught.
  destruct (malformed ev) eqn:Hev.
  - rewrite (decide_True (P := true = true)) by done.
    rewrite !(decide_False (P := true = false)) by done.
    rewrite app_nil_r, length_app. simpl.
    split; [| split; [| done]].
    + destruct ev as [s | s raw | s]; try discriminate Hev.
      simpl in Hev. destruct (JSON_parse raw) eqn:Hraw; [discriminate |].
      by rewrite (onmessage_throws JSON_parse s raw).
    + rewrite IHerr. rewrite Nat.add_1_r. simpl.
      by rewrite <- replicate_cons_app.
  - rewrite !(decide_True (P := false = false)) by done.
    rewrite (decide_False (P := false = true)) by done.
    rewrite !app_nil_r.
    rewrite (run_snoc JSON_parse), dispatch_now, dispatch_uncaught, Hev.
    rewrite IHnow, IHerr, IHok. done.
Qed.

(** The handlers never close a socket.  The effect trace after any
    sequence of events is the list of console lines of its lifecycle
    events, in order; messages write nothing.  Only the cleanup closes the
    sockets: each one once, leaving the component state as it is. *)
Theorem only_cleanup_closes_sockets (evs : list event) :
  effects (now (run evs)) = omap logged evs
  /\ (forall s, ws_close s ∉ effects (now (run evs)))
  /\ (forall w : world value,
        cleanup w =
        (Normal tt,
         {| component := component w;
            effects := effects w ++ [ws_close Waveforms; ws_close Detections] |})).
Proof.
  assert (Hlog : effects (now (run evs)) = omap logged evs).
  { induction evs as [| ev evs IH] using rev_ind; [done |].
    rewrite (run_snoc JSON_parse), dispatch_now, omap_app, <- IH.
    destruct ev as [s | s raw | s].
    - destruct s; simpl; done.
    - rewrite onmessage_effects. simpl. by rewrite app_nil_r.
    - destruct s; simpl; done. }
  split; [exact Hlog |]. split.
  - intros s. rewrite Hlog. intros Hin.
    apply list_elem_of_omap in Hin as (ev & _ & Hev).
    by destruct ev as [[] | [] ? | []].
  - intros w. unfold cleanup, bind, emit. simpl. by rewrite <- app_assoc.
Qed.

(** Both buffers are sliding windows over what was pushed.  The waveform
    buffer holds the last [min n 101] pushed values, oldest first; the
    detection buffer holds the last [min n 50], newest first.  Once a
    buffer is full, each push evicts exactly the oldest entry. *)
Theorem buffers_are_sliding_windows (evs : list event) :
  let st := component (now (run evs)) in
  let pw := pushed Waveforms evs in
  let pd := pushed Detections evs in
  length (waveformData st) = Nat.min (length pw) 101
  /\ (forall i : nat,
        (i < Nat.min (length pw) 101)%nat ->
        waveformData st !! i
        = pw !! (length pw - Nat.min (length pw) 101 + i)%nat)
  /\ length (detections st) = Nat.min (length pd) 50
  /\ (forall i : nat,
        (i < Nat.min (length pd) 50)%nat ->
        detections st !! i = pd !! (length pd - S i)%nat).
Proof.
  intros st pw pd. subst st pw pd.
  rewrite (waveform_buffer JSON_parse), (detection_buffer JSON_parse).
  split; [rewrite length_drop; lia |]. split.
  - intros i Hi. rewrite lookup_drop. f_equal. lia.
  - split; [rewrite length_take, length_reverse; lia |].
    intros i Hi. rewrite lookup_take_lt by lia.
    apply reverse_lookup. lia.
Qed.

Lemma status_after_values (s : stream) (evs : list event) :
  status_after s evs = "connected"%string
  \/ status_after s evs = "disconnected"%string.
Proof.
  unfold status_after.
  destruct (last (lifecycle s evs)) as [x |] eqn:Hlast; [| by right].
  simpl. apply last_Some_elem_of in Hlast.
  apply list_elem_of_omap in Hlast as (ev & _ & Hev).
  destruct ev as [s' | s' raw | s']; simpl in Hev;
    try destruct (bool_decide (s' = s)); try discriminate Hev;
    injection Hev as <-; auto.
Qed.

(** The header follows the lifecycle events: each status span shows the
    status announced by the last open or close of its own stream
    ([disconnected] before any), and its class is [status-connected]
    exactly when that status is [connected]. *)
Theorem status_spans_follow_lifecycle (evs : list event) :
  connection_status_spans (component (now (run evs))) =
  [ (if bool_decide (status_after Waveforms evs = "connected"%string)
     then "status-connected" else "status-disconnected",
     "Waveforms: " ++ status_after Waveforms evs)%string;
    (if bool_decide (status_after Detections evs = "connected"%string)
     then "status-connected" else "status-disconnected",
     "Detections: " ++ status_after Detections evs)%string ]
  /\ (forall s,
        status_after s evs = "connected"%string
        \/ status_after s evs = "disconnected"%string).
Proof.
  split; [| intros s; apply status_after_values].
  unfold connection_status_spans, status_span.
  pose proof (status_after_run JSON_parse Waveforms evs) as Hw.
  pose proof (status_after_run JSON_parse Detections evs) as Hd.
  simpl in Hw, Hd. rewrite Hw, Hd. simpl. fold (status_after Waveforms evs).
  fold (status_after Detections evs).
  assert (Hdec : forall x : string,
            bool_decide (Some x = Some "connected"%string)
            = bool_decide (x = "connected"%string)).
  { intros x. apply bool_decide_ext. split; congruence. }
  by rewrite !Hdec.
Qed.

End Handlers.
End AppMore.

(* ================================================================== *)
(** * Further properties of the waveform renderer                       *)
(* ================================================================== *)

Module ChartMore.
Import JS WaveformChart JSFacts ChartFacts.

Section AnyNumber.
Context {num : Type} `{JSNumber num}.

(** The x coordinates of the loop: index times step, for the indices from
    [index] on. *)
Lemma forEach_abscissas_seq (st sc : num) (index : nat) (l : list num) :
  abscissas (forEach_point st sc index l) =
  map (fun i => num_mul (num_of_Z (Z.of_nat i)) st) (seq index (length l)).
Proof.
  revert index. induction l as [| x l IH]; intros index; [done |].
  unfold abscissas in *. simpl.
  destruct (Nat.eqb index 0); simpl; f_equal; apply IH.
Qed.

(** Samples after the 500th have no influence on the picture, not even
    through the amplitude normalisation: two arrays with the same first
    500 samples are drawn by the same calls. *)
Theorem draw_depends_on_first_500 (s1 s2 : list num) :
  take 500 s1 = take 500 s2 ->
  draw (Some (sample_of s1)) = draw (Some (sample_of s2)).
Proof.
  intros Hkept. unfold draw, sample_of. cbn [data].
  unfold step, scale, divisor, maxAmplitude.
  by rewrite !waveformData_take, Hkept.
Qed.

End AnyNumber.

(** ** In doubles *)

Local Open Scope float_scope.

Lemma draw_depends_on_first_500_witness :
  draw (Some (sample_of (replicate 500 1 ++ [1000]))) =
  draw (Some (sample_of (replicate 500 1 ++ [-7; 3]))).
Proof.
  apply (draw_depends_on_first_500
           (replicate 500 1 ++ [1000]) (replicate 500 1 ++ [-7; 3])).
  reflexivity.
Defined.

(** For every number of samples from 1 to 500 and every index below it,
    the x coordinate computed in doubles is in [0, 800) and smaller than
    the next one. *)
Lemma grid_check :
  (let ints := map (fun i => num_of_Z (num:=float) (Z.of_nat i)) (seq 0 501) in
   forallb (fun n =>
     let st := num_div (width (num:=float)) (nth n ints (num_of_Z 0)) in
     forallb (fun i =>
       let x := num_mul (nth i ints (num_of_Z 0)) st in
       PrimFloat.leb 0 x && PrimFloat.ltb x 800
       && PrimFloat.ltb x (num_mul (nth (S i) ints (num_of_Z 0)) st))
       (seq 0 n)) (seq 1 500)) = true.
Proof. vm_compute. reflexivity. Qed.

Lemma grid_point (n i : nat) :
  (1 <= n <= 500)%nat -> (i < n)%nat ->
  let st := num_div (width (num:=float)) (num_of_Z (Z.of_nat n)) in
  let x := num_mul (num_of_Z (Z.of_nat i)) st in
  PrimFloat.leb 0 x = true /\ PrimFloat.ltb x 800 = true
  /\ PrimFloat.ltb x (num_mul (num_of_Z (Z.of_nat (S i))) st) = true.
Proof.
  intros Hn Hi.
  pose proof grid_check as Hcheck. cbv zeta in Hcheck.
  rewrite forallb_forall in Hcheck.
  specialize (Hcheck n). rewrite in_seq in Hcheck.
  specialize (Hcheck ltac:(lia)).
  rewrite forallb_forall in Hcheck.
  specialize (Hcheck i). rewrite in_seq in Hcheck.
  specialize (Hcheck ltac:(lia)).
  assert (Hnth : forall k, (k <= 500)%nat ->
            nth k (map (fun i => num_of_Z (num:=float) (Z.of_nat i)) (seq 0 501))
                (num_of_Z 0)
            = num_of_Z (Z.of_nat k)).
  { intros k Hk.
    change (num_of_Z (num:=float) 0)
      with ((fun i => num_of_Z (num:=float) (Z.of_nat i)) 0%nat).
    rewrite map_nth, seq_nth by lia. done. }
  rewrite !Hnth in Hcheck by lia.
  apply andb_prop in Hcheck as [Hcheck Hnext].
  apply andb_prop in Hcheck as [Hlow Hhigh].
  done.
Qed.

(** In doubles, whatever the samples are, the x coordinates of the path
    are non-negative, increase strictly from one point to the next and
    stay below the canvas width of 800; there is one per sample kept. *)
Theorem abscissas_increase_within_canvas (samples : list float) :
  let xs := abscissas (path samples) in
  length xs = Nat.min 500 (length samples)
  /\ Forall (fun x => PrimFloat.leb 0 x = true /\ PrimFloat.ltb x 800 = true) xs
  /\ (forall (i : nat) (a b : float),
        xs !! i = Some a -> xs !! S i = Some b -> PrimFloat.ltb a b = true).
Proof.
  intros xs. subst xs. unfold path, step.
  rewrite forEach_abscissas_seq, waveformData_take.
  set (n := length (take 500 samples)).
  assert (Hn : n = Nat.min 500 (length samples)) by apply length_take.
  split; [by rewrite length_map, length_seq |]. split.
  - apply Forall_forall. intros x Hx.
    apply list_elem_of_fmap in Hx as (i & -> & Hi).
    apply elem_of_seq in Hi.
    destruct (grid_point n i) as (Hlow & Hhigh & _); [lia | lia |]. done.
  - intros i a b Ha Hb.
    rewrite list_lookup_fmap in Ha, Hb.
    destruct (seq 0 n !! i) as [j |] eqn:Hj; [| discriminate Ha].
    destruct (seq 0 n !! S i) as [k |] eqn:Hk; [| discriminate Hb].
    apply lookup_seq in Hj as [-> Hin]. apply lookup_seq in Hk as [-> Hkn].
    simpl in Ha, Hb. injection Ha as <-. injection Hb as <-.
    destruct (grid_point n i) as (_ & _ & Hnext); [lia | lia |]. done.
Qed.

Local Close Scope float_scope.

(** ** In exact arithmetic *)

Local Open Scope Qc_scope.




End ChartMore.

(* ================================================================== *)
(** * Further properties of the detection card and feed                 *)
(* ================================================================== *)

Module CardMore.
Import JS DetectionCard.
Local Open Scope string_scope.




Lemma get_property_is_Some {A} (o : list (string * A)) (k : string) :
  k ∈ o.*1 -> is_Some (get_property o k).
Proof.
  induction o as [| [k' v] o IH]; simpl; [by intros ?%not_elem_of_nil |].
  intros Hk. destruct (String.eqb k k') eqn:Hkk'; [done |].
  apply IH. apply elem_of_cons in Hk as [-> | Hk]; [| done].
  by rewrite String.eqb_refl in Hkk'.
Qed.

Lemma insert_index_Permutation (n : Z) (k : string) (l : list (Z * string)) :
  insert_index n k l ≡ₚ (n, k) :: l.
Proof.
  induction l as [| [n' k'] l IH]; simpl; [done |].
  destruct (n <? n')%Z; [done |].
  rewrite IH. apply Permutation_swap.
Qed.

Lemma index_keys_Permutation {A} (o : list (string * A)) :
  (index_keys o).*2 ≡ₚ filter (fun k => ¬ array_index k = None) (o.*1).
Proof.
  induction o as [| [k v] o IH]; simpl; [done |].
  rewrite filter_cons.
  destruct (array_index k) as [n |] eqn:Hk.
  - rewrite decide_True by done.
    rewrite insert_index_Permutation. simpl. by rewrite IH.
  - rewrite decide_False by (by intros []). done.
Qed.

(** [Object.keys] lists every key once. *)
Lemma Object_keys_Permutation {A} (o : list (string * A)) :
  Object_keys o ≡ₚ o.*1.
Proof.
  unfold Object_keys. rewrite index_keys_Permutation.
  rewrite Permutation_app_comm. apply filter_app_complement.
Qed.

(** Without array-index names the keys come in insertion order. *)
Lemma Object_keys_insertion_order {A} (o : list (string * A)) :
  Forall (fun k => array_index k = None) (o.*1) -> Object_keys o = o.*1.
Proof.
  intros Hnone. unfold Object_keys.
  assert (Hidx : index_keys o = []).
  { induction o as [| [k v] o IH]; [done |].
    simpl in *. apply Forall_cons in Hnone as [-> Ho]. by apply IH. }
  rewrite Hidx. simpl.
  induction (o.*1) as [| k ks IH]; [done |].
  apply Forall_cons in Hnone as [Hk Hks].
  rewrite filter_cons, decide_True by done. f_equal. by apply IH.
Qed.

Section Card.
Variable toLocaleTimeString : Timestamp -> string.
Variable Number_toString : float -> string.

Local Abbreviation card_of := (DetectionCard toLocaleTimeString Number_toString).

Lemma blocks_of_keys (o : list (string * ModelResult)) (ks : list string) :
  Forall (fun k => k ∈ o.*1) ks ->
  Forall2 (fun k block =>
             exists r, get_property o k = Some r
                       /\ block = model_block Number_toString k r)
          ks
          (omap (fun modelName =>
                   model_block Number_toString modelName
                   <$> get_property o modelName) ks).
Proof.
  induction 1 as [| k ks Hk _ IH]; [constructor |].
  simpl. destruct (get_property_is_Some o k Hk) as [r Hr].
  rewrite Hr. simpl. constructor; [eauto | exact IH].
Qed.

(** The card has exactly one block per model of the message: the blocks
    are headed by the names [Object.keys] lists, each name of [models]
    once, and the block of a name shows the result stored under it.  When
    no model name is an array index, the blocks follow the order of the
    message. *)
Theorem one_block_per_model (detection : DetectionEvent) :
  let o := default [] (models detection) in
  let blocks := models_comparison (card_of detection) in
  map heading blocks = Object_keys o
  /\ map heading blocks ≡ₚ o.*1
  /\ (Forall (fun k => array_index k = None) (o.*1) ->
      map heading blocks = o.*1)
  /\ Forall (fun block =>
               exists r, get_property o (heading block) = Some r
                         /\ block = model_block Number_toString (heading block) r)
            blocks.
Proof.
  intros o blocks. subst blocks. unfold DetectionCard.
  cbn [models_comparison]. fold o.
  assert (Hin : Forall (fun k => k ∈ o.*1) (Object_keys o)).
  { apply Forall_forall. intros k Hk. by rewrite <- Object_keys_Permutation. }
  pose proof (blocks_of_keys o (Object_keys o) Hin) as Hblocks.
  set (bs := omap _ (Object_keys o)) in *. clearbody bs.
  assert (Hgen : forall ks bs',
            Forall2 (fun k block =>
                       exists r, get_property o k = Some r
                                 /\ block = model_block Number_toString k r)
                    ks bs' ->
            map heading bs' = ks
            /\ Forall (fun block =>
                         exists r, get_property o (heading block) = Some r
                                   /\ block = model_block Number_toString
                                                          (heading block) r)
                      bs').
  { induction 1 as [| k b ks bs' (r & Hr & ->) _ [IHh IHb]]; [done |].
    simpl. rewrite IHh. split; [done |]. constructor; eauto. }
  destruct (Hgen _ _ Hblocks) as [Hheads Hall].
  split; [exact Hheads |]. split; [| split; [| exact Hall]].
  - rewrite Hheads. apply Object_keys_Permutation.
  - intros Hnone. rewrite Hheads. by apply Object_keys_insertion_order.
Qed.


End Card.
End CardMore.

(* ================================================================== *)
(** * The detection feed over the stream                                *)
(* ================================================================== *)

Module FeedFacts.
Import JS App DetectionCard AppFacts.

Section Feed.
Variable JSON_parse : string -> option DetectionEvent.
Variable toLocaleTimeString : Timestamp -> string.
Variable Number_toString : float -> string.


End Feed.
End FeedFacts.

(* ================================================================== *)
(** * Further properties of the hourly aggregate                        *)
(* ================================================================== *)

Module SqlMore.
Import Sql SqlFacts.

Lemma hour_pos : 0 < hour.
Proof. unfold hour. lia. Qed.

(** Bucketing is stable and ordered: the bucket of a bucket start is
    itself, a later timestamp never falls in an earlier bucket, and two
    timestamps less than an hour apart fall in the same bucket or in
    adjacent ones. *)
Theorem time_bucket_stable_and_monotone (t1 t2 : Z) :
  time_bucket hour (time_bucket hour t1) = time_bucket hour t1
  /\ (t1 <= t2 -> time_bucket hour t1 <= time_bucket hour t2)
  /\ (t1 <= t2 < t1 + hour ->
      time_bucket hour t2 = time_bucket hour t1
      \/ time_bucket hour t2 = time_bucket hour t1 + hour).
Proof.
  pose proof hour_pos as Hh.
  assert (Hfloor : forall t,
            time_bucket hour t = bucket_origin + hour * ((t - bucket_origin) / hour)).
  { intros t. unfold time_bucket.
    pose proof (Z.div_mod (t - bucket_origin) hour ltac:(lia)). lia. }
  split; [| split].
  - rewrite !Hfloor.
    replace (bucket_origin + hour * ((t1 - bucket_origin) / hour) - bucket_origin)
      with (((t1 - bucket_origin) / hour) * hour) by lia.
    by rewrite Z.div_mul by lia.
  - intros Hle. rewrite !Hfloor.
    assert ((t1 - bucket_origin) / hour <= (t2 - bucket_origin) / hour)
      by (apply Z.div_le_mono; lia).
    nia.
  - intros [Hle Hlt]. rewrite !Hfloor.
    assert (H1 : (t1 - bucket_origin) / hour <= (t2 - bucket_origin) / hour)
      by (apply Z.div_le_mono; lia).
    assert (H2 : (t2 - bucket_origin) / hour
                 <= (t1 - bucket_origin + hour) / hour)
      by (apply Z.div_le_mono; lia).
    replace (t1 - bucket_origin + hour)
      with (t1 - bucket_origin + 1 * hour) in H2 by lia.
    rewrite Z.div_add in H2 by lia.
    assert ((t2 - bucket_origin) / hour = (t1 - bucket_origin) / hour
            \/ (t2 - bucket_origin) / hour = (t1 - bucket_origin) / hour + 1)
      as [-> | ->] by lia; [by left | right; lia].
Qed.

Lemma time_bucket_witness :
  time_bucket hour (7 * hour + 5) <= time_bucket hour (7 * hour + 9).
Proof.
  refine (proj1 (proj2 (time_bucket_stable_and_monotone
                          (7 * hour + 5) (7 * hour + 9))) _).
  unfold hour. lia.
Defined.

(** Every row of the view stands for at least one record, and never
    counts more positive detections than records. *)
Theorem view_rows_are_nonempty_groups
    (rows : list detection) (k : Z * string) (row : stats) :
  detection_stats_hourly rows !! k = Some row ->
  1 <= total_detections row
  /\ 0 <= positive_detections row <= total_detections row
  /\ exists r, r ∈ rows /\ group_key r = k.
Proof.
  unfold detection_stats_hourly. rewrite lookup_fmap, group_rows_lookup.
  destruct (group k rows) as [| r g] eqn:Hg; [discriminate |].
  intros Hrow.
  change (Some (finalize (foldl accum_step accum_init (r :: g))) = Some row)
    in Hrow.
  rewrite finalize_group in Hrow. injection Hrow as <-.
  unfold group_stats. cbn [total_detections positive_detections].
  pose proof (length_filter (fun r => detected r = true) (r :: g)) as Hlen.
  simpl length in *. split; [lia |]. split; [lia |].
  exists r.
  assert (Hr : r ∈ filter (fun r => group_key r = k) rows).
  { unfold group in Hg. rewrite Hg. apply list_elem_of_here. }
  apply list_elem_of_filter in Hr as [Hk Hin]. done.
Qed.

Lemma view_rows_witness :
  1 <= 3 /\ 0 <= 2 <= 3 /\
  exists r, r ∈ scenario_3 /\ group_key r = (7 * hour, "modelA"%string).
Proof.
  apply (view_rows_are_nonempty_groups scenario_3 (7 * hour, "modelA"%string)
           ({| total_detections := 3; positive_detections := 2;
               avg_confidence := average confidence scenario_3;
               avg_processing_time := average processing_time_ms scenario_3 |})).
  unfold detection_stats_hourly. rewrite lookup_fmap, group_rows_lookup.
  reflexivity.
Defined.

(** Inserting a record changes one row of the view only: the row of the
    record's own bucket and model, whose count grows by one (or which
    appears with count one); every other row is as before. *)
Theorem insert_changes_one_group (rows : list detection) (r : detection) :
  (forall k, k <> group_key r ->
     detection_stats_hourly (rows ++ [r]) !! k
     = detection_stats_hourly rows !! k)
  /\ total_detections <$> detection_stats_hourly (rows ++ [r]) !! group_key r
     = Some (from_option total_detections 0
               (detection_stats_hourly rows !! group_key r) + 1)
  /\ positive_detections <$> detection_stats_hourly (rows ++ [r]) !! group_key r
     = Some (from_option positive_detections 0
               (detection_stats_hourly rows !! group_key r)
             + (if detected r then 1 else 0)).
Proof.
  unfold detection_stats_hourly. split.
  - intros k Hk. rewrite !lookup_fmap, group_rows_snoc.
    by rewrite lookup_insert_ne.
  - rewrite !lookup_fmap, group_rows_snoc, lookup_insert_eq.
    destruct (group_rows rows !! group_key r) as [a |]; simpl; split; done.
Qed.

(** The row of a group in the view. *)
Lemma view_lookup (rows : list detection) (k : Z * string) :
  detection_stats_hourly rows !! k =
  match group k rows with
  | [] => None
  | g => Some (group_stats g)
  end.
Proof.
  unfold detection_stats_hourly. rewrite lookup_fmap, group_rows_lookup.
  destruct (group k rows) as [| r g]; [done |].
  simpl. f_equal. apply (finalize_group (r :: g)).
Qed.

(** The two counts of every row of the view do not depend on the order in
    which the records are stored or scanned.  (The averages are sums of
    doubles taken in scan order and carry no such guarantee.) *)
Theorem counts_ignore_row_order
    (rows rows' : list detection) (k : Z * string) :
  rows ≡ₚ rows' ->
  total_detections <$> detection_stats_hourly rows !! k
  = total_detections <$> detection_stats_hourly rows' !! k
  /\ positive_detections <$> detection_stats_hourly rows !! k
     = positive_detections <$> detection_stats_hourly rows' !! k.
Proof.
  intros Hperm. rewrite !view_lookup.
  assert (Hg : group k rows ≡ₚ group k rows')
    by (unfold group; by rewrite Hperm).
  assert (Hlen : length (group k rows) = length (group k rows'))
    by (by rewrite Hg).
  assert (Hpos : length (filter (fun r => detected r = true) (group k rows))
                 = length (filter (fun r => detected r = true) (group k rows')))
    by (by rewrite Hg).
  assert (Htotal : forall g : list detection,
            total_detections
              <$> match g with
                  | [] => None
                  | d :: l => Some (group_stats (d :: l))
                  end
            = if Nat.eqb (length g) 0 then None
              else Some (Z.of_nat (length g)))
    by (by intros []).
  assert (Hpositive : forall g : list detection,
            positive_detections
              <$> match g with
                  | [] => None
                  | d :: l => Some (group_stats (d :: l))
                  end
            = if Nat.eqb (length g) 0 then None
              else Some (Z.of_nat
                           (length (filter (fun r => detected r = true) g))))
    by (by intros []).
  by rewrite !Htotal, !Hpositive, Hlen, Hpos.
Qed.

Lemma counts_ignore_row_order_witness :
  total_detections
    <$> detection_stats_hourly (reverse scenario_3) !! (7 * hour, "modelA"%string)
  = total_detections
    <$> detection_stats_hourly scenario_3 !! (7 * hour, "modelA"%string).
Proof.
  refine (proj1 (counts_ignore_row_order (reverse scenario_3) scenario_3
                   (7 * hour, "modelA"%string) _)).
  apply reverse_Permutation.
Defined.

Lemma sum_over_insert (f : stats -> Z) (view : gmap (Z * string) stats)
    (k : Z * string) (row : stats) :
  sum_over f (<[k := row]> view)
  = f row + sum_over f view - from_option f 0 (view !! k).
Proof.
  unfold sum_over.
  assert (Hcomm : forall (m : gmap (Z * string) stats)
                         (j1 j2 : Z * string) (z1 z2 : stats) (y : Z),
            j1 <> j2 -> m !! j1 = Some z1 -> m !! j2 = Some z2 ->
            f z1 + (f z2 + y) = f z2 + (f z1 + y)) by (intros; lia).
  destruct (view !! k) as [old |] eqn:Hk; simpl.
  - rewrite <- insert_delete_eq.
    rewrite map_fold_insert_L; [| apply Hcomm | apply lookup_delete_eq].
    rewrite (map_fold_delete_L _ _ k old view); [lia | apply Hcomm | done].
  - rewrite map_fold_insert_L; [lia | apply Hcomm | done].
Qed.

(** The view partitions the table: summed over all its rows,
    [total_detections] is the number of records and [positive_detections]
    the number of records with [detected = true].  No record is counted
    twice or left out. *)
Theorem view_counts_every_record_once (rows : list detection) :
  sum_over total_detections (detection_stats_hourly rows)
  = Z.of_nat (length rows)
  /\ sum_over positive_detections (detection_stats_hourly rows)
     = Z.of_nat (length (filter (fun r => detected r = true) rows)).
Proof.
  induction rows as [| r rows [IHt IHp]] using rev_ind; [done |].
  unfold detection_stats_hourly in *.
  rewrite group_rows_snoc, fmap_insert, !sum_over_insert, IHt, IHp.
  rewrite lookup_fmap, filter_app, !length_app, filter_cons, filter_nil.
  destruct (group_rows rows !! group_key r) as [a |]; simpl;
    destruct (detected r); simpl; lia.
Qed.



End SqlMore.
